(** * InstancesRenderer: layer-renderer lifecycle, z-order and measurer

    A shallow embedding of [InstancesRenderer] (the scene editor's renderer
    that keeps one [LayerRenderer] per layer name) and the properties of its
    reconciliation pass.

    Modelling conventions.
    - JavaScript objects have identity: a [LayerRenderer] is a reference
      [ref] into [heap]; the [PIXI.Container] that a [LayerRenderer] owns
      (what [getPixiContainer()] returns) is named by the same reference.
    - [layersRenderers] is a plain object ([{}]) used as a dictionary from
      layer names to renderers. Its own keys are a [gmap string ref]; a read
      [this.layersRenderers[name]] that finds no own key goes on to
      [Object.prototype], whose members ([constructor], [toString],
      [__proto__], ...) are truthy and are no [LayerRenderer]: a method call
      on such a value is a [TypeError]. The [for ... in] loops are guarded by
      [hasOwnProperty] and meet the own keys only; they are enumerated here
      in the order of [map_to_list], by the code in the order the keys were
      added.
    - A call ends normally or is unwound by a [TypeError]; either way
      [this] is left in a state, and the caller may go on calling.
    - [LayerRenderer] and [PIXI] are collaborators whose code is not part of
      this file's source. Every call made to them is recorded, in order, in
      [calls]; of [PIXI.Container] only [addChild] (append), [removeChild]
      (remove by identity) and the stable [Array.prototype.sort] of
      [children] are given a meaning.
    - The layout is owned by the editor and may change between two passes:
      [render] takes the layout as it is when the pass runs. *)

From Stdlib Require Import ZArith.
From stdpp Require Import base decidable option list sorting gmap strings.

Local Open Scope Z_scope.
Local Open Scope nat_scope.

(** ** Data model *)

(** Identity of a JavaScript object. *)
Abbreviation ref := nat.

(** A [gdLayer] object: its identity and the name [getName()] returns. Two
    different objects may carry the same name. *)
Record gdLayer := mkLayer { layerObject : nat; getName : string }.

#[global] Instance gdLayer_eq_dec : EqDecision gdLayer.
Proof. solve_decision. Defined.

(** [gdLayout]: the ordered layers; [getLayersCount] and [getLayerAt]. *)
Abbreviation gdLayout := (list gdLayer).
Definition getLayersCount (layout : gdLayout) : nat := length layout.
Definition getLayerAt (layout : gdLayout) (i : nat) : option gdLayer := layout !! i.
Definition layerNames (layout : gdLayout) : list string := getName <$> layout.

(** The two fields of a [LayerRenderer] that [InstancesRenderer] writes. *)
Record LayerRenderer := mkLayerRenderer { layer : gdLayer; wasUsed : bool }.

(** Calls made to the collaborators. *)
Inductive Call :=
| new_LayerRenderer (r : ref) (l : gdLayer)
| LayerRenderer_render (r : ref)
| LayerRenderer_resetInstanceRenderersFor (r : ref) (objectName : string)
| LayerRenderer_delete (r : ref)
| Container_addChild (r : ref)
| Container_removeChild (r : ref)
| Container_destroy.

#[global] Instance Call_eq_dec : EqDecision Call.
Proof. solve_decision. Defined.

#[global] Instance LayerRenderer_delete_inj : Inj (=) (=) LayerRenderer_delete.
Proof. by intros r1 r2 [=]. Qed.

#[global] Instance LayerRenderer_reset_inj objectName :
  Inj (=) (=) (λ r, LayerRenderer_resetInstanceRenderersFor r objectName).
Proof. by intros r1 r2 [=]. Qed.

(** [this], together with the part of the heap it reaches.
    - [pixiContainer]: [this.pixiContainer.children];
    - [zOrder]: the [zOrder] property of each child container, absent when
      the property is [undefined];
    - [nextRef]: the next fresh object identity;
    - [Object_prototype_extended]: whether [Object.prototype] has got the
      members [layer] and [wasUsed] on top of its standard ones. *)
Record InstancesRenderer := mkInstancesRenderer {
  layersRenderers : gmap string ref;
  pixiContainer : list ref;
  heap : gmap ref LayerRenderer;
  zOrder : gmap ref Z;
  nextRef : ref;
  Object_prototype_extended : bool;
  calls : list Call
}.

(** The constructor: [layersRenderers = {}], a new empty [PIXI.Container]. *)
Definition constructor : InstancesRenderer :=
  {| layersRenderers := ∅; pixiContainer := []; heap := ∅; zOrder := ∅;
     nextRef := 0; Object_prototype_extended := false; calls := [] |}.

(** ** Field updates *)

Definition set_layersRenderers (f : gmap string ref → gmap string ref)
    (s : InstancesRenderer) : InstancesRenderer :=
  {| layersRenderers := f (layersRenderers s); pixiContainer := pixiContainer s;
     heap := heap s; zOrder := zOrder s; nextRef := nextRef s;
     Object_prototype_extended := Object_prototype_extended s; calls := calls s |}.

Definition set_children (f : list ref → list ref)
    (s : InstancesRenderer) : InstancesRenderer :=
  {| layersRenderers := layersRenderers s; pixiContainer := f (pixiContainer s);
     heap := heap s; zOrder := zOrder s; nextRef := nextRef s;
     Object_prototype_extended := Object_prototype_extended s; calls := calls s |}.

Definition set_heap (f : gmap ref LayerRenderer → gmap ref LayerRenderer)
    (s : InstancesRenderer) : InstancesRenderer :=
  {| layersRenderers := layersRenderers s; pixiContainer := pixiContainer s;
     heap := f (heap s); zOrder := zOrder s; nextRef := nextRef s;
     Object_prototype_extended := Object_prototype_extended s; calls := calls s |}.

Definition set_zOrders (f : gmap ref Z → gmap ref Z)
    (s : InstancesRenderer) : InstancesRenderer :=
  {| layersRenderers := layersRenderers s; pixiContainer := pixiContainer s;
     heap := heap s; zOrder := f (zOrder s); nextRef := nextRef s;
     Object_prototype_extended := Object_prototype_extended s; calls := calls s |}.

Definition record (c : Call) (s : InstancesRenderer) : InstancesRenderer :=
  {| layersRenderers := layersRenderers s; pixiContainer := pixiContainer s;
     heap := heap s; zOrder := zOrder s; nextRef := nextRef s;
     Object_prototype_extended := Object_prototype_extended s;
     calls := calls s ++ [c] |}.

(** [layerRenderer.layer = l] *)
Definition set_layer (r : ref) (l : gdLayer) : InstancesRenderer → InstancesRenderer :=
  set_heap (alter (λ o, {| layer := l; wasUsed := wasUsed o |}) r).

(** [layerRenderer.wasUsed = b] *)
Definition set_wasUsed (r : ref) (b : bool) : InstancesRenderer → InstancesRenderer :=
  set_heap (alter (λ o, {| layer := layer o; wasUsed := b |}) r).

(** [layerRenderer.wasUsed], read as a condition ([undefined] is falsy). *)
Definition get_wasUsed (s : InstancesRenderer) (r : ref) : bool :=
  match heap s !! r with Some o => wasUsed o | None => false end.

(** [layerRenderer.getPixiContainer().zOrder = i] *)
Definition set_zOrder (r : ref) (i : Z) : InstancesRenderer → InstancesRenderer :=
  set_zOrders <[r := i]>.

(** ** Reading [this.layersRenderers[name]] *)

(** The names of the members of [Object.prototype] (ECMAScript, Annex B
    included), which a plain object such as [layersRenderers] inherits. *)
Definition Object_prototype_members : list string :=
  ["constructor"; "hasOwnProperty"; "isPrototypeOf"; "propertyIsEnumerable";
   "toLocaleString"; "toString"; "valueOf"; "__proto__";
   "__defineGetter__"; "__defineSetter__"; "__lookupGetter__";
   "__lookupSetter__"].

(** Whether [name] is a member that [layersRenderers] inherits in [s]. *)
Definition inherited (s : InstancesRenderer) (name : string) : bool :=
  bool_decide (name ∈ Object_prototype_members)
  || (Object_prototype_extended s && bool_decide (name ∈ ["layer"; "wasUsed"])).

(** What the read yields: the renderer stored under an own key; else the
    inherited member of that name, a function or an object or [true], never
    a [LayerRenderer]; else [undefined]. *)
Inductive property :=
| own_renderer (r : ref)
| inherited_member
| undefined.

#[global] Instance property_eq_dec : EqDecision property.
Proof. solve_decision. Defined.

Definition get_layersRenderers (s : InstancesRenderer) (name : string) : property :=
  match layersRenderers s !! name with
  | Some r => own_renderer r
  | None => if inherited s name then inherited_member else undefined
  end.

(** How a call that changes [this] ends: it returns, or a [TypeError]
    unwinds it; [this] is left in the state given. *)
Inductive completion :=
| Normal (s : InstancesRenderer)
| Thrown (s : InstancesRenderer).

Definition state_of (c : completion) : InstancesRenderer :=
  match c with
  | Normal s => s
  | Thrown s => s
  end.

(** Whether the call returned. *)
Definition returned (c : completion) : bool :=
  match c with
  | Normal _ => true
  | Thrown _ => false
  end.

(** ** The collaborators *)

(** [new LayerRenderer({..., layer, ...})]: a fresh object bound to [l]. The
    flag is not yet set; [render] sets it right after, before anything reads
    it. *)
Definition construct_LayerRenderer (l : gdLayer) (s : InstancesRenderer)
    : ref * InstancesRenderer :=
  let r := nextRef s in
  (r, {| layersRenderers := layersRenderers s; pixiContainer := pixiContainer s;
         heap := <[r := {| layer := l; wasUsed := false |}]> (heap s);
         zOrder := zOrder s; nextRef := S r;
         Object_prototype_extended := Object_prototype_extended s;
         calls := calls s ++ [new_LayerRenderer r l] |}).

(** [this.pixiContainer.addChild(c)]: [c] is pushed at the end. *)
Definition addChild (c : ref) (s : InstancesRenderer) : InstancesRenderer :=
  record (Container_addChild c) (set_children (λ ch, ch ++ [c]) s).

(** [children.indexOf(c)] then [splice]: the first occurrence is removed. *)
Fixpoint remove_first (c : ref) (ch : list ref) : list ref :=
  match ch with
  | [] => []
  | x :: ch' => if decide (x = c) then ch' else x :: remove_first c ch'
  end.

(** [this.pixiContainer.removeChild(c)] *)
Definition removeChild (c : ref) (s : InstancesRenderer) : InstancesRenderer :=
  record (Container_removeChild c) (set_children (remove_first c) s).

(** ** [render] *)

(** One iteration of the loop of [render], for the layer at position [i],
    when the read [this.layersRenderers[layerName]] yields a [LayerRenderer]
    (an own key) or [undefined]. *)
Definition reconcile_layer (i : nat) (l : gdLayer) (s : InstancesRenderer)
    : InstancesRenderer :=
  let layerName := getName l in
  let '(layerRenderer, s) :=
    match layersRenderers s !! layerName with
    | Some r => (r, s)
    | None =>
        let '(r, s) := construct_LayerRenderer l s in
        (r, addChild r (set_layersRenderers <[layerName := r]> s))
    end in
  record (LayerRenderer_render layerRenderer)
    (set_zOrder layerRenderer (Z.of_nat i)
       (set_wasUsed layerRenderer true
          (set_layer layerRenderer l s))).

(** The assignments [layerRenderer.layer = layer] and
    [layerRenderer.wasUsed = true] when [layerRenderer] is an inherited
    member. For the name [__proto__] the member is [Object.prototype] itself,
    which gets the members [layer] and [wasUsed]; otherwise they land on a
    function or object that nothing here reads (on [true], the first
    assignment is the one that throws). *)
Definition write_to_inherited (layerName : string) (s : InstancesRenderer)
    : InstancesRenderer :=
  if decide (layerName = "__proto__") then
    {| layersRenderers := layersRenderers s; pixiContainer := pixiContainer s;
       heap := heap s; zOrder := zOrder s; nextRef := nextRef s;
       Object_prototype_extended := true; calls := calls s |}
  else s.

(** One iteration of the loop of [render]. On an inherited member nothing
    is constructed, the two assignments are made, and
    [layerRenderer.getPixiContainer()] throws: the member has no such
    method. *)
Definition render_layer (i : nat) (l : gdLayer) (s : InstancesRenderer)
    : completion :=
  let layerName := getName l in
  match get_layersRenderers s layerName with
  | inherited_member => Thrown (write_to_inherited layerName s)
  | own_renderer _ => Normal (reconcile_layer i l s)
  | undefined => Normal (reconcile_layer i l s)
  end.

(** [for (let i = ...; i < getLayersCount(); i++)]: [layers] holds the layers
    from position [i] on. An exception ends the loop. *)
Fixpoint render_layers (i : nat) (layers : list gdLayer) (s : InstancesRenderer)
    : completion :=
  match layers with
  | [] => Normal s
  | l :: layers' =>
      match render_layer i l s with
      | Normal s => render_layers (S i) layers' s
      | Thrown s => Thrown s
      end
  end.

(** The loop of [render] when no iteration throws. *)
Fixpoint reconcile_layers (i : nat) (layers : list gdLayer) (s : InstancesRenderer)
    : InstancesRenderer :=
  match layers with
  | [] => s
  | l :: layers' => reconcile_layers (S i) layers' (reconcile_layer i l s)
  end.

(** [a.zOrder || 0] *)
Definition zOrder_or_0 (z : gmap ref Z) (a : ref) : Z := default 0%Z (z !! a).

(** The comparator's result [a.zOrder - b.zOrder]. *)
Definition compareZOrder (z : gmap ref Z) (a b : ref) : Z :=
  (zOrder_or_0 z a - zOrder_or_0 z b)%Z.

(** [Array.prototype.sort] is stable: [a] goes before the first element it
    does not compare greater than. *)
Fixpoint sort_insert (z : gmap ref Z) (a : ref) (ch : list ref) : list ref :=
  match ch with
  | [] => [a]
  | b :: ch' =>
      if decide (compareZOrder z a b ≤ 0)%Z then a :: b :: ch'
      else b :: sort_insert z a ch'
  end.

Definition sort_children (z : gmap ref Z) (ch : list ref) : list ref :=
  foldr (sort_insert z) [] ch.

(** The assignments [a.zOrder = a.zOrder || 0] made by the comparator. *)
Definition coalesce_zOrders (ch : list ref) (z : gmap ref Z) : gmap ref Z :=
  foldr (λ a z, <[a := zOrder_or_0 z a]> z) z ch.

(** [_updatePixiObjectsZOrder]. With fewer than two children the comparator
    is never called; otherwise every child takes part in a comparison. *)
Definition _updatePixiObjectsZOrder (s : InstancesRenderer) : InstancesRenderer :=
  if decide (length (pixiContainer s) < 2) then s
  else
    let s := set_zOrders (coalesce_zOrders (pixiContainer s)) s in
    set_children (sort_children (zOrder s)) s.

(** The own keys a [for (let i in this.layersRenderers)] loop visits. *)
Definition own_keys (s : InstancesRenderer) : list string :=
  (map_to_list (layersRenderers s)).*1.

(** The body of the loop of [_cleanUnusedLayerRenderers] for key [i]. A key
    deleted before it is reached is not visited. *)
Definition clean_entry (s : InstancesRenderer) (i : string) : InstancesRenderer :=
  match layersRenderers s !! i with
  | None => s
  | Some layerRenderer =>
      if negb (get_wasUsed s layerRenderer) then
        set_layersRenderers (delete i)
          (record (LayerRenderer_delete layerRenderer)
             (removeChild layerRenderer s))
      else set_wasUsed layerRenderer false s
  end.

Definition _cleanUnusedLayerRenderers (s : InstancesRenderer) : InstancesRenderer :=
  foldl clean_entry s (own_keys s).

(** [render()]: the loop, then [_updatePixiObjectsZOrder()] and
    [_cleanUnusedLayerRenderers()]; an exception of the loop skips both. *)
Definition render (layout : gdLayout) (s : InstancesRenderer) : completion :=
  match render_layers 0 layout s with
  | Normal s => Normal (_cleanUnusedLayerRenderers (_updatePixiObjectsZOrder s))
  | Thrown s => Thrown s
  end.

(** [render()] when no iteration of its loop throws. *)
Definition reconcile (layout : gdLayout) (s : InstancesRenderer) : InstancesRenderer :=
  _cleanUnusedLayerRenderers
    (_updatePixiObjectsZOrder
       (reconcile_layers 0 layout s)).

(** ** [resetInstanceRenderersFor] and [delete] *)

Definition reset_entry (objectName : string) (s : InstancesRenderer) (i : string)
    : InstancesRenderer :=
  match layersRenderers s !! i with
  | None => s
  | Some layerRenderer =>
      record (LayerRenderer_resetInstanceRenderersFor layerRenderer objectName) s
  end.

Definition resetInstanceRenderersFor (objectName : string) (s : InstancesRenderer)
    : InstancesRenderer :=
  foldl (reset_entry objectName) s (own_keys s).

Definition delete_entry (s : InstancesRenderer) (i : string) : InstancesRenderer :=
  match layersRenderers s !! i with
  | None => s
  | Some layerRenderer => record (LayerRenderer_delete layerRenderer) s
  end.

(** The first loop of [delete]: "Destroy the layers first." *)
Definition delete_layers (s : InstancesRenderer) : InstancesRenderer :=
  foldl delete_entry s (own_keys s).

(** [delete()]: the layers, then [this.pixiContainer.destroy()]. *)
Definition InstancesRenderer_delete (s : InstancesRenderer) : InstancesRenderer :=
  record Container_destroy (delete_layers s).

(** The state after the constructor and a sequence of [render()] calls, one
    per layout in [layouts], first to last, whether they returned or threw. *)
Definition run (layouts : list gdLayout) : InstancesRenderer :=
  foldl (λ s layout, state_of (render layout s)) constructor layouts.




(** The calls a step [s → s'] added to the record. *)
Definition new_calls (s s' : InstancesRenderer) : list Call :=
  drop (length (calls s)) (calls s').

(** ** Invariants *)

(** What ties the dictionary, the heap and the root container together at
    every point where no loop body is half-way through: distinct names hold
    distinct allocated renderers, and the children of the root container are
    the drawables of the renderers of the dictionary, once each. *)
Record linked (s : InstancesRenderer) : Prop := mkLinked {
  linked_inj : ∀ n1 n2 r,
    layersRenderers s !! n1 = Some r → layersRenderers s !! n2 = Some r → n1 = n2;
  linked_heap : ∀ n r, layersRenderers s !! n = Some r → is_Some (heap s !! r);
  linked_fresh : ∀ n r, layersRenderers s !! n = Some r → r < nextRef s;
  linked_NoDup : NoDup (pixiContainer s);
  linked_children : ∀ r,
    r ∈ pixiContainer s ↔ ∃ n, layersRenderers s !! n = Some r
}.

(** Between two passes no entry is marked. *)
Definition idle (s : InstancesRenderer) : Prop :=
  ∀ n r, layersRenderers s !! n = Some r → get_wasUsed s r = false.

(** The order the comparator of [_updatePixiObjectsZOrder] sorts by. *)
Definition zOrder_le (z : gmap ref Z) (a b : ref) : Prop :=
  (zOrder_or_0 z a ≤ zOrder_or_0 z b)%Z.

(** [c] comes before [d] in the children sequence [ch]. *)
Definition precedes (ch : list ref) (c d : ref) : Prop :=
  ∃ p q, ch !! p = Some c ∧ ch !! q = Some d ∧ p < q.

(** The renderer the iteration for a layer named [n] works on: the entry of
    [n] when there is one, a fresh object otherwise. *)
Definition renderer_for (s : InstancesRenderer) (n : string) : ref :=
  default (nextRef s) (layersRenderers s !! n).

(** The calls [_cleanUnusedLayerRenderers] makes for the keys [ks]: the
    drawable of an unmarked entry is detached, then the entry torn down. *)
Definition clean_calls (s : InstancesRenderer) (ks : list string) : list Call :=
  ks ≫= λ n,
    match layersRenderers s !! n with
    | Some r =>
        if get_wasUsed s r then []
        else [Container_removeChild r; LayerRenderer_delete r]
    | None => []
    end.

(** The entry of [n] after the cleanup of a state [s]. *)
Definition swept (s : InstancesRenderer) (n : string) : option ref :=
  match layersRenderers s !! n with
  | Some r => if get_wasUsed s r then Some r else None
  | None => None
  end.

(** A renderer with its mark reset. *)
Definition unmark (o : LayerRenderer) : LayerRenderer :=
  {| layer := layer o; wasUsed := false |}.

(** The drawables of the layers of [layout], in layout order, as the
    dictionary of [s] names them. *)
Definition layer_drawables (s : InstancesRenderer) (layout : gdLayout) : list ref :=
  (λ l, renderer_for s (getName l)) <$> layout.

(** The calls one iteration of the loop of [render] makes. *)
Definition layer_calls (s : InstancesRenderer) (l : gdLayer) : list Call :=
  match layersRenderers s !! getName l with
  | Some r => [LayerRenderer_render r]
  | None => [new_LayerRenderer (nextRef s) l; Container_addChild (nextRef s);
             LayerRenderer_render (nextRef s)]
  end.

(** The calls the loop of [render] makes. *)
Fixpoint loop_calls (i : nat) (layers : list gdLayer) (s : InstancesRenderer)
    : list Call :=
  match layers with
  | [] => []
  | l :: layers' => layer_calls s l ++ loop_calls (S i) layers' (reconcile_layer i l s)
  end.

(** The state after further [render()] calls from [s]. *)
Definition run_from (s : InstancesRenderer) (layouts : list gdLayout)
    : InstancesRenderer :=
  foldl (λ s layout, state_of (render layout s)) s layouts.


(** The renderers of the entries, in the order a [for ... in] loop over the
    dictionary meets them. *)
Definition entry_renderers (s : InstancesRenderer) : list ref :=
  (map_to_list (layersRenderers s)).*2.

(** How many times the call [c] occurs in [cs]. *)
Definition times (c : Call) (cs : list Call) : nat := count_occ Call_eq_dec cs c.

(** ** [instanceMeasurer] *)

(** A [gdInitialInstance], by what its accessors return; [number] stands for
    the JavaScript numbers, which the measurer only passes along. *)
Record gdInitialInstance (number : Type) := mkInstance {
  getLayer : string;
  getX : number;
  getY : number;
  hasCustomSize : bool;
  getCustomWidth : number;
  getCustomHeight : number
}.
Arguments mkInstance {number}.
Arguments getLayer {number}.
Arguments getX {number}.
Arguments getY {number}.
Arguments hasCustomSize {number}.
Arguments getCustomWidth {number}.
Arguments getCustomHeight {number}.

(** The geometry queries of the collaborator: what the [LayerRenderer] [r]
    answers for an instance. *)
Class LayerRendererGeometry (number : Type) := {
  LayerRenderer_getInstanceLeft : ref → gdInitialInstance number → number;
  LayerRenderer_getInstanceTop : ref → gdInitialInstance number → number;
  LayerRenderer_getInstanceWidth : ref → gdInitialInstance number → number;
  LayerRenderer_getInstanceHeight : ref → gdInitialInstance number → number
}.

(** How a query ends: with a value, or with the [TypeError] that a method
    call on [undefined] raises. *)
Inductive outcome (A : Type) :=
| Returns (a : A)
| TypeError.
Arguments Returns {A}.
Arguments TypeError {A}.

#[global] Instance outcome_bind : MBind outcome := λ A B f m,
  match m with
  | Returns a => f a
  | TypeError => TypeError
  end.

(** The value of [this.layersRenderers[layerName]] as a condition: a
    renderer and an inherited member are truthy, [undefined] is falsy. *)
Definition truthy (layerRenderer : property) : bool :=
  match layerRenderer with
  | own_renderer _ => true
  | inherited_member => true
  | undefined => false
  end.

(** [layerRenderer.method(...)] for one of the geometry queries: a renderer
    answers; an inherited member has no such method, and [undefined] has no
    property at all. *)
Definition call_method {A} (layerRenderer : property) (method : ref → A)
    : outcome A :=
  match layerRenderer with
  | own_renderer r => Returns (method r)
  | inherited_member => TypeError
  | undefined => TypeError
  end.

Module instanceMeasurer.
Section queries.
Context {number : Type} (zero : number) `{!LayerRendererGeometry number}.

(** The object literal [{x, y, width, height}]. *)
Record Rect := mkRect { x : number; y : number; width : number; height : number }.

Definition getInstanceLeft (s : InstancesRenderer)
    (instance : gdInitialInstance number) : outcome number :=
  let layerName := getLayer instance in
  let layerRenderer := get_layersRenderers s layerName in
  if negb (truthy layerRenderer) then Returns (getX instance)
  else call_method layerRenderer (λ r, LayerRenderer_getInstanceLeft r instance).

Definition getInstanceTop (s : InstancesRenderer)
    (instance : gdInitialInstance number) : outcome number :=
  let layerName := getLayer instance in
  let layerRenderer := get_layersRenderers s layerName in
  if negb (truthy layerRenderer) then Returns (getY instance)
  else call_method layerRenderer (λ r, LayerRenderer_getInstanceTop r instance).

Definition getInstanceWidth (s : InstancesRenderer)
    (instance : gdInitialInstance number) : outcome number :=
  if hasCustomSize instance then Returns (getCustomWidth instance)
  else
    let layerName := getLayer instance in
    let layerRenderer := get_layersRenderers s layerName in
    if negb (truthy layerRenderer) then Returns zero
    else call_method layerRenderer (λ r, LayerRenderer_getInstanceWidth r instance).

Definition getInstanceHeight (s : InstancesRenderer)
    (instance : gdInitialInstance number) : outcome number :=
  if hasCustomSize instance then Returns (getCustomHeight instance)
  else
    let layerName := getLayer instance in
    let layerRenderer := get_layersRenderers s layerName in
    if negb (truthy layerRenderer) then Returns zero
    else call_method layerRenderer (λ r, LayerRenderer_getInstanceHeight r instance).

Definition getInstanceRect (s : InstancesRenderer)
    (instance : gdInitialInstance number) : outcome Rect :=
  left ← getInstanceLeft s instance;
  top ← getInstanceTop s instance;
  w ← getInstanceWidth s instance;
  h ← getInstanceHeight s instance;
  Returns {| x := left; y := top; width := w; height := h |}.

End queries.
End instanceMeasurer.

(** Answers of a renderer used to run the measurer on an example: every
    renderer reports the position shifted by its reference and a 32 x 16
    box. *)
#[local] Instance example_geometry : LayerRendererGeometry Z := {|
  LayerRenderer_getInstanceLeft r instance := (getX instance + Z.of_nat r)%Z;
  LayerRenderer_getInstanceTop r instance := (getY instance + Z.of_nat r)%Z;
  LayerRenderer_getInstanceWidth r instance := 32%Z;
  LayerRenderer_getInstanceHeight r instance := 16%Z
|}.

(** ** Reading the record of calls *)

(** The renderer, or the drawable of the renderer, that a call concerns. *)
Definition renderer_of (c : Call) : option ref :=
  match c with
  | new_LayerRenderer r _ => Some r
  | LayerRenderer_render r => Some r
  | LayerRenderer_resetInstanceRenderersFor r _ => Some r
  | LayerRenderer_delete r => Some r
  | Container_addChild r => Some r
  | Container_removeChild r => Some r
  | Container_destroy => None
  end.

(** In the sequence of calls [cs], no call concerns a renderer after the
    teardown of that renderer. *)
Fixpoint teardown_is_final (cs : list Call) : Prop :=
  match cs with
  | [] => True
  | c :: cs' =>
      (∀ r, c = LayerRenderer_delete r →
         ∀ c', c' ∈ cs' → renderer_of c' ≠ Some r)
      ∧ teardown_is_final cs'
  end.

(** The calls of a pass that finds no entry for any of [layers]: one
    renderer after the other is constructed, attached and rendered, the first
    one being the object [r0]. *)
Fixpoint first_pass_calls (r0 : ref) (layers : list gdLayer) : list Call :=
  match layers with
  | [] => []
  | l :: layers' =>
      [new_LayerRenderer r0 l; Container_addChild r0; LayerRenderer_render r0]
        ++ first_pass_calls (S r0) layers'
  end.

Definition is_render (c : Call) : bool :=
  match c with
  | LayerRenderer_render _ => true
  | _ => false
  end.

(** ** Sessions *)

(** The operations a user of the renderer interleaves between the
    constructor and [delete()]. *)
Inductive operation :=
| op_render (layout : gdLayout)
| op_resetInstanceRenderersFor (objectName : string).

(** The state an operation leaves, whether it returned or threw. *)
Definition perform (s : InstancesRenderer) (op : operation) : InstancesRenderer :=
  match op with
  | op_render layout => state_of (render layout s)
  | op_resetInstanceRenderersFor objectName => resetInstanceRenderersFor objectName s
  end.

(** The state after the constructor and the operations [ops], first to
    last. *)
Definition session (ops : list operation) : InstancesRenderer :=
  foldl perform constructor ops.

(** The renderers torn down so far are out of the dictionary for good. *)
Definition retired (s : InstancesRenderer) : Prop :=
  ∀ r, LayerRenderer_delete r ∈ calls s →
    r < nextRef s ∧ ∀ n, layersRenderers s !! n ≠ Some r.

(** Every renderer constructed so far is an entry or was torn down, every
    entry was constructed for its name, and only constructed renderers were
    torn down. *)
Definition accounted (s : InstancesRenderer) : Prop :=
  (∀ r l, new_LayerRenderer r l ∈ calls s →
     (∃ n, layersRenderers s !! n = Some r) ∨ LayerRenderer_delete r ∈ calls s)
  ∧ (∀ n r, layersRenderers s !! n = Some r →
       ∃ l, getName l = n ∧ new_LayerRenderer r l ∈ calls s)
  ∧ (∀ r, LayerRenderer_delete r ∈ calls s →
       ∃ l, new_LayerRenderer r l ∈ calls s).

(** What every state of a session satisfies. *)
Definition sound (s : InstancesRenderer) : Prop :=
  linked s ∧ retired s ∧ accounted s ∧ teardown_is_final (calls s).

(** The number of [render()] calls among [cs]. *)
Definition render_count (cs : list Call) : nat :=
  length (filter (λ c, is_render c = true) cs).

(** The state [s] with [cs] as record of calls. *)
Definition set_calls (cs : list Call) (s : InstancesRenderer) : InstancesRenderer :=
  {| layersRenderers := layersRenderers s; pixiContainer := pixiContainer s;
     heap := heap s; zOrder := zOrder s; nextRef := nextRef s;
     Object_prototype_extended := Object_prototype_extended s; calls := cs |}.

(** [f] does not look at the calls made before it: it only adds its own. *)
Definition call_blind (f : InstancesRenderer → InstancesRenderer) : Prop :=
  ∀ s, ∃ new, ∀ cs, f (set_calls cs s) = set_calls (cs ++ new) (f s).

(** * Properties *)

(** ** One iteration of the loop of [render] *)

Lemma reconcile_layer_map i l s :
  layersRenderers (reconcile_layer i l s)
  = <[getName l := renderer_for s (getName l)]> (layersRenderers s).
Proof.
  unfold reconcile_layer, renderer_for.
  destruct (layersRenderers s !! getName l) as [r|] eqn:E; simpl; [|done].
  by rewrite insert_id.
Qed.

Lemma reconcile_layer_children i l s :
  pixiContainer (reconcile_layer i l s)
  = pixiContainer s ++
      match layersRenderers s !! getName l with
      | Some _ => []
      | None => [nextRef s]
      end.
Proof.
  unfold reconcile_layer.
  destruct (layersRenderers s !! getName l); simpl; [|done].
  by rewrite app_nil_r.
Qed.

Lemma reconcile_layer_nextRef i l s :
  nextRef (reconcile_layer i l s)
  = match layersRenderers s !! getName l with
    | Some _ => nextRef s
    | None => S (nextRef s)
    end.
Proof. unfold reconcile_layer. by destruct (layersRenderers s !! getName l). Qed.

Lemma reconcile_layer_zOrder i l s :
  zOrder (reconcile_layer i l s)
  = <[renderer_for s (getName l) := Z.of_nat i]> (zOrder s).
Proof.
  unfold reconcile_layer, renderer_for.
  by destruct (layersRenderers s !! getName l).
Qed.

Lemma reconcile_layer_calls i l s :
  calls (reconcile_layer i l s)
  = calls s ++
      match layersRenderers s !! getName l with
      | Some r => [LayerRenderer_render r]
      | None => [new_LayerRenderer (nextRef s) l; Container_addChild (nextRef s);
                 LayerRenderer_render (nextRef s)]
      end.
Proof.
  unfold reconcile_layer.
  destruct (layersRenderers s !! getName l); simpl; [done|].
  by rewrite <- !app_assoc.
Qed.

Lemma reconcile_layer_heap_other i l s r :
  r ≠ renderer_for s (getName l) →
  heap (reconcile_layer i l s) !! r = heap s !! r.
Proof.
  unfold reconcile_layer, renderer_for. intros Hr.
  destruct (layersRenderers s !! getName l) as [r0|]; simpl in *.
  - by rewrite !lookup_alter_ne.
  - by rewrite !lookup_alter_ne, lookup_insert_ne.
Qed.

Lemma reconcile_layer_heap_self i l s :
  (∀ r, layersRenderers s !! getName l = Some r → is_Some (heap s !! r)) →
  heap (reconcile_layer i l s) !! renderer_for s (getName l)
  = Some {| layer := l; wasUsed := true |}.
Proof.
  unfold reconcile_layer, renderer_for. intros Hh.
  destruct (layersRenderers s !! getName l) as [r0|]; simpl.
  - destruct (Hh r0 eq_refl) as [o Ho].
    by rewrite !lookup_alter_eq, Ho.
  - by rewrite !lookup_alter_eq, lookup_insert_eq.
Qed.

Lemma constructor_linked : linked constructor.
Proof.
  split; simpl; try (intros *; rewrite lookup_empty; done).
  - constructor.
  - intros r. split; [by intros ?%elem_of_nil|].
    intros [n Hn]. by rewrite lookup_empty in Hn.
Qed.


Lemma renderer_for_Some s n r :
  layersRenderers s !! n = Some r → renderer_for s n = r.
Proof. unfold renderer_for. by intros ->. Qed.

Lemma renderer_for_None s n :
  layersRenderers s !! n = None → renderer_for s n = nextRef s.
Proof. unfold renderer_for. by intros ->. Qed.

Lemma reconcile_layer_linked i l s : linked s → linked (reconcile_layer i l s).
Proof.
  intros [Hinj Hheap Hfresh Hnd Hch].
  assert (Hself := reconcile_layer_heap_self i l s (Hheap (getName l))).
  split.
  - intros n1 n2 r. rewrite reconcile_layer_map, !lookup_insert.
    destruct (layersRenderers s !! getName l) as [r0|] eqn:E.
    + rewrite (renderer_for_Some _ _ _ E).
      repeat case_decide; intros; simplify_eq; eauto.
    + rewrite (renderer_for_None _ _ E).
      repeat case_decide; intros; simplify_eq; eauto.
      * apply Hfresh in H2. lia.
      * apply Hfresh in H1. lia.
  - intros n r. rewrite reconcile_layer_map, lookup_insert.
    case_decide; intros Hn; simplify_eq; [by rewrite Hself|].
    destruct (decide (r = renderer_for s (getName l))) as [->|Hne].
    + by rewrite Hself.
    + rewrite reconcile_layer_heap_other by done. eauto.
  - intros n r. rewrite reconcile_layer_map, reconcile_layer_nextRef, lookup_insert.
    destruct (layersRenderers s !! getName l) as [r0|] eqn:E.
    + rewrite (renderer_for_Some _ _ _ E).
      case_decide; intros; simplify_eq; eauto.
    + rewrite (renderer_for_None _ _ E).
      case_decide; intros Hn; simplify_eq; [lia|].
      apply Hfresh in Hn. lia.
  - rewrite reconcile_layer_children.
    destruct (layersRenderers s !! getName l) as [r0|] eqn:E.
    + by rewrite app_nil_r.
    + apply NoDup_app. split_and!; [done| |apply NoDup_singleton].
      intros x Hx ->%list_elem_of_singleton.
      apply Hch in Hx as [n Hn]. apply Hfresh in Hn. lia.
  - intros r. rewrite reconcile_layer_children.
    destruct (layersRenderers s !! getName l) as [r0|] eqn:E.
    + rewrite app_nil_r, Hch. split; intros [n Hn]; exists n.
      * rewrite reconcile_layer_map, lookup_insert.
        case_decide; simplify_eq; [|done].
        by rewrite (renderer_for_Some _ _ _ E).
      * rewrite reconcile_layer_map, lookup_insert in Hn.
        case_decide; simplify_eq; [|done].
        by rewrite (renderer_for_Some _ _ _ E).
    + rewrite elem_of_app, list_elem_of_singleton, Hch. split.
      * intros [[n Hn]| ->].
        -- exists n. rewrite reconcile_layer_map, lookup_insert_ne; [done|].
           intros <-. congruence.
        -- exists (getName l).
           by rewrite reconcile_layer_map, lookup_insert_eq, (renderer_for_None _ _ E).
      * intros [n Hn]. rewrite reconcile_layer_map, lookup_insert in Hn.
        case_decide; simplify_eq; [|eauto].
        right. by rewrite (renderer_for_None _ _ E).
Qed.

(** ** The loop of [render] *)

Lemma reconcile_layers_linked layers : ∀ i s,
  linked s → linked (reconcile_layers i layers s).
Proof.
  induction layers as [|l layers IH]; intros i s Hs; simpl; [done|].
  by apply IH, reconcile_layer_linked.
Qed.

Lemma reconcile_layer_nextRef_le i l s : nextRef s ≤ nextRef (reconcile_layer i l s).
Proof.
  rewrite reconcile_layer_nextRef. destruct (layersRenderers s !! getName l); lia.
Qed.

Lemma reconcile_layers_nextRef_le layers : ∀ i s,
  nextRef s ≤ nextRef (reconcile_layers i layers s).
Proof.
  induction layers as [|l layers IH]; intros i s; simpl; [done|].
  etrans; [apply (reconcile_layer_nextRef_le i l)|apply IH].
Qed.

Lemma reconcile_layer_kept i l s n r :
  layersRenderers s !! n = Some r →
  layersRenderers (reconcile_layer i l s) !! n = Some r.
Proof.
  intros Hn. rewrite reconcile_layer_map, lookup_insert.
  case_decide; [|done]. subst n. by rewrite (renderer_for_Some _ _ _ Hn).
Qed.

(** An entry that exists when the loop starts is the entry the loop ends
    with: renderers are reused, never replaced, by the loop. *)
Lemma reconcile_layers_kept layers : ∀ i s n r,
  layersRenderers s !! n = Some r →
  layersRenderers (reconcile_layers i layers s) !! n = Some r.
Proof.
  induction layers as [|l layers IH]; intros i s n r Hn; simpl; [done|].
  by apply IH, reconcile_layer_kept.
Qed.

Lemma reconcile_layers_in layers : ∀ i s n,
  n ∈ layerNames layers →
  is_Some (layersRenderers (reconcile_layers i layers s) !! n).
Proof.
  induction layers as [|l layers IH]; intros i s n Hn; simpl in *.
  { by apply elem_of_nil in Hn. }
  apply elem_of_cons in Hn as [->|Hn]; [|by apply IH].
  exists (renderer_for s (getName l)).
  apply reconcile_layers_kept. by rewrite reconcile_layer_map, lookup_insert_eq.
Qed.

(** Where the entries the loop ends with come from. *)
Lemma reconcile_layers_origin layers : ∀ i s n r,
  layersRenderers (reconcile_layers i layers s) !! n = Some r →
  layersRenderers s !! n = Some r
  ∨ (layersRenderers s !! n = None ∧ n ∈ layerNames layers ∧ nextRef s ≤ r).
Proof.
  induction layers as [|l layers IH]; intros i s n r Hn; simpl in *; [by left|].
  apply IH in Hn as [Hn|(Hn & Hin & Hle)].
  - rewrite reconcile_layer_map, lookup_insert in Hn.
    case_decide; simplify_eq; [|by left].
    destruct (layersRenderers s !! getName l) as [r0|] eqn:E.
    + left. by rewrite (renderer_for_Some _ _ _ E).
    + right. rewrite (renderer_for_None _ _ E). split_and!; [done| |done].
      apply elem_of_cons. by left.
  - right. pose proof (reconcile_layer_nextRef_le i l s).
    rewrite reconcile_layer_map, lookup_insert in Hn.
    case_decide; simplify_eq. split_and!; [done| |lia].
    apply elem_of_cons. by right.
Qed.

Lemma reconcile_layer_untouched i l s n r :
  linked s → layersRenderers s !! n = Some r → n ≠ getName l →
  heap (reconcile_layer i l s) !! r = heap s !! r
  ∧ zOrder (reconcile_layer i l s) !! r = zOrder s !! r.
Proof.
  intros Hs Hn Hne.
  assert (r ≠ renderer_for s (getName l)) as Hr.
  { destruct (layersRenderers s !! getName l) as [r0|] eqn:E.
    - rewrite (renderer_for_Some _ _ _ E). intros ->.
      by apply Hne, (linked_inj s Hs n (getName l) r0).
    - rewrite (renderer_for_None _ _ E).
      apply (linked_fresh s Hs) in Hn. lia. }
  split; [by apply reconcile_layer_heap_other|].
  by rewrite reconcile_layer_zOrder, lookup_insert_ne.
Qed.

(** The renderer of a name the loop does not meet is left as it is. *)
Lemma reconcile_layers_untouched layers : ∀ i s n r,
  linked s → layersRenderers s !! n = Some r → n ∉ layerNames layers →
  heap (reconcile_layers i layers s) !! r = heap s !! r
  ∧ zOrder (reconcile_layers i layers s) !! r = zOrder s !! r.
Proof.
  induction layers as [|l layers IH]; intros i s n r Hs Hn Hni; simpl in *; [done|].
  apply not_elem_of_cons in Hni as [Hne Hni].
  destruct (reconcile_layer_untouched i l s n r Hs Hn Hne) as [<- <-].
  apply (IH _ _ n); [by apply reconcile_layer_linked|by apply reconcile_layer_kept|done].
Qed.

(** What the loop leaves in the renderer of a layer: the layer object, the
    mark and the position of the last layer of that name. *)
Lemma reconcile_layers_last layers : ∀ i s k l,
  linked s →
  layers !! k = Some l →
  (∀ k' l', k < k' → layers !! k' = Some l' → getName l' ≠ getName l) →
  ∃ r, layersRenderers (reconcile_layers i layers s) !! getName l = Some r
     ∧ heap (reconcile_layers i layers s) !! r = Some {| layer := l; wasUsed := true |}
     ∧ zOrder (reconcile_layers i layers s) !! r = Some (Z.of_nat (i + k)).
Proof.
  induction layers as [|l0 layers IH]; intros i s k l Hs Hk Hlast; [done|].
  destruct k as [|k]; simpl in *.
  - simplify_eq.
    assert (getName l ∉ layerNames layers) as Hni.
    { intros (l' & Hl' & [k' Hk']%list_elem_of_lookup)%list_elem_of_fmap.
      eapply (Hlast (S k') l'); [lia|done|done]. }
    set (r := renderer_for s (getName l)).
    assert (layersRenderers (reconcile_layer i l s) !! getName l = Some r) as Hr
      by by rewrite reconcile_layer_map, lookup_insert_eq.
    exists r.
    destruct (reconcile_layers_untouched layers (S i) _ _ _
                (reconcile_layer_linked i l s Hs) Hr Hni) as [-> ->].
    split_and!.
    + by apply reconcile_layers_kept.
    + apply reconcile_layer_heap_self, (linked_heap s Hs).
    + rewrite reconcile_layer_zOrder, lookup_insert_eq. do 2 f_equal. lia.
  - destruct (IH (S i) (reconcile_layer i l0 s) k l) as (r & H1 & H2 & H3).
    + by apply reconcile_layer_linked.
    + done.
    + intros k' l' Hlt Hk'. apply (Hlast (S k') l'); [lia|done].
    + exists r. split_and!; [done..|]. rewrite H3. do 2 f_equal. lia.
Qed.

Lemma reconcile_layer_used_mono i l s r :
  linked s → get_wasUsed s r = true → get_wasUsed (reconcile_layer i l s) r = true.
Proof.
  intros Hs Hr. unfold get_wasUsed in *.
  destruct (decide (r = renderer_for s (getName l))) as [->|Hne].
  - by rewrite reconcile_layer_heap_self by apply (linked_heap s Hs).
  - by rewrite reconcile_layer_heap_other.
Qed.

Lemma reconcile_layers_used_mono layers : ∀ i s r,
  linked s → get_wasUsed s r = true →
  get_wasUsed (reconcile_layers i layers s) r = true.
Proof.
  induction layers as [|l layers IH]; intros i s r Hs Hr; simpl; [done|].
  apply IH; [by apply reconcile_layer_linked|by apply reconcile_layer_used_mono].
Qed.

(** Every entry whose name the loop meets ends marked. *)
Lemma reconcile_layers_used layers : ∀ i s n r,
  linked s → n ∈ layerNames layers →
  layersRenderers (reconcile_layers i layers s) !! n = Some r →
  get_wasUsed (reconcile_layers i layers s) r = true.
Proof.
  induction layers as [|l layers IH]; intros i s n r Hs Hin Hn; simpl in *.
  { by apply elem_of_nil in Hin. }
  destruct (decide (n ∈ layerNames layers)) as [Hin'|Hni].
  { apply (IH _ _ n); [by apply reconcile_layer_linked|done..]. }
  apply elem_of_cons in Hin as [->|?]; [|done].
  assert (layersRenderers (reconcile_layer i l s) !! getName l
          = Some (renderer_for s (getName l))) as Hr
    by by rewrite reconcile_layer_map, lookup_insert_eq.
  rewrite (reconcile_layers_kept _ _ _ _ _ Hr) in Hn. simplify_eq.
  apply reconcile_layers_used_mono; [by apply reconcile_layer_linked|].
  unfold get_wasUsed.
  by rewrite reconcile_layer_heap_self by apply (linked_heap s Hs).
Qed.

(** An entry whose name the loop does not meet stays unmarked. *)
Lemma reconcile_layers_unused layers i s n r :
  linked s → idle s → n ∉ layerNames layers →
  layersRenderers (reconcile_layers i layers s) !! n = Some r →
  get_wasUsed (reconcile_layers i layers s) r = false.
Proof.
  intros Hs Hidle Hni Hn.
  apply reconcile_layers_origin in Hn as [Hn|(_ & ? & _)]; [|done].
  unfold get_wasUsed.
  destruct (reconcile_layers_untouched layers i s n r Hs Hn Hni) as [-> _].
  by apply (Hidle n).
Qed.

(** ** Sorting the children by [zOrder] *)

Lemma sort_insert_Permutation z a ch : sort_insert z a ch ≡ₚ a :: ch.
Proof.
  induction ch as [|b ch IH]; simpl; [done|].
  case_decide; [done|]. rewrite IH. apply Permutation_swap.
Qed.

Lemma sort_children_Permutation z ch : sort_children z ch ≡ₚ ch.
Proof.
  induction ch as [|a ch IH]; simpl; [done|].
  by rewrite sort_insert_Permutation, IH.
Qed.

Lemma sort_insert_sorted z a ch :
  StronglySorted (zOrder_le z) ch →
  StronglySorted (zOrder_le z) (sort_insert z a ch).
Proof.
  induction 1 as [|b ch Hch IH Hb]; simpl.
  { repeat constructor. }
  unfold compareZOrder. case_decide as Hab.
  - constructor; [by constructor|].
    constructor; [unfold zOrder_le; lia|].
    eapply Forall_impl; [exact Hb|]. unfold zOrder_le. intros c. lia.
  - constructor; [done|].
    rewrite sort_insert_Permutation. constructor; [|done].
    unfold zOrder_le. lia.
Qed.

Lemma sort_children_sorted z ch :
  StronglySorted (zOrder_le z) (sort_children z ch).
Proof.
  induction ch as [|a ch IH]; simpl; [constructor|].
  by apply sort_insert_sorted.
Qed.



Lemma coalesce_zOrders_or_0 ch z a :
  zOrder_or_0 (coalesce_zOrders ch z) a = zOrder_or_0 z a.
Proof.
  induction ch as [|b ch IH]; simpl; [done|].
  unfold zOrder_or_0 at 1. rewrite lookup_insert.
  case_decide; subst; simpl; [apply IH|]. apply IH.
Qed.

Lemma coalesce_zOrders_Some ch z a v :
  z !! a = Some v → coalesce_zOrders ch z !! a = Some v.
Proof.
  intros Ha. induction ch as [|b ch IH]; simpl; [done|].
  rewrite lookup_insert. case_decide; [|done]. subst.
  unfold zOrder_or_0. by rewrite IH.
Qed.

Lemma updateZOrder_frame s :
  layersRenderers (_updatePixiObjectsZOrder s) = layersRenderers s
  ∧ heap (_updatePixiObjectsZOrder s) = heap s
  ∧ nextRef (_updatePixiObjectsZOrder s) = nextRef s
  ∧ calls (_updatePixiObjectsZOrder s) = calls s.
Proof. unfold _updatePixiObjectsZOrder. by case_decide. Qed.

Lemma updateZOrder_Permutation s :
  pixiContainer (_updatePixiObjectsZOrder s) ≡ₚ pixiContainer s.
Proof.
  unfold _updatePixiObjectsZOrder. case_decide; simpl; [done|].
  apply sort_children_Permutation.
Qed.

Lemma updateZOrder_or_0 s a :
  zOrder_or_0 (zOrder (_updatePixiObjectsZOrder s)) a = zOrder_or_0 (zOrder s) a.
Proof.
  unfold _updatePixiObjectsZOrder. case_decide; simpl; [done|].
  apply coalesce_zOrders_or_0.
Qed.

Lemma updateZOrder_Some s a v :
  zOrder s !! a = Some v → zOrder (_updatePixiObjectsZOrder s) !! a = Some v.
Proof.
  unfold _updatePixiObjectsZOrder. case_decide; simpl; [done|].
  apply coalesce_zOrders_Some.
Qed.

Lemma updateZOrder_sorted s :
  StronglySorted (zOrder_le (zOrder (_updatePixiObjectsZOrder s)))
    (pixiContainer (_updatePixiObjectsZOrder s)).
Proof.
  unfold _updatePixiObjectsZOrder. case_decide as Hlen; simpl.
  - destruct (pixiContainer s) as [|a [|b ch]]; simpl in *; [| |lia];
      repeat constructor.
  - apply sort_children_sorted.
Qed.


Lemma updateZOrder_get_wasUsed s r :
  get_wasUsed (_updatePixiObjectsZOrder s) r = get_wasUsed s r.
Proof.
  unfold get_wasUsed. by destruct (updateZOrder_frame s) as (_ & -> & _).
Qed.

Lemma updateZOrder_linked s : linked s → linked (_updatePixiObjectsZOrder s).
Proof.
  intros [Hinj Hheap Hfresh Hnd Hch].
  destruct (updateZOrder_frame s) as (Hm & Hh & Hn & _).
  split; rewrite ?Hm, ?Hh, ?Hn; try done.
  - by rewrite updateZOrder_Permutation.
  - intros r. by rewrite updateZOrder_Permutation.
Qed.

(** ** [_cleanUnusedLayerRenderers] *)

Lemma remove_first_sublist c ch : remove_first c ch `sublist_of` ch.
Proof.
  induction ch as [|x ch IH]; simpl; [done|].
  case_decide; [by apply sublist_cons|by apply sublist_skip].
Qed.

Lemma elem_of_remove_first c ch x :
  NoDup ch → x ∈ remove_first c ch ↔ x ∈ ch ∧ x ≠ c.
Proof.
  induction 1 as [|y ch Hy Hnd IH]; simpl.
  { split; [by intros ?%elem_of_nil|by intros [?%elem_of_nil _]]. }
  case_decide; subst.
  - rewrite elem_of_cons. split.
    + intros Hx. split; [by right|]. by intros ->.
    + by intros [[->|Hx] Hne].
  - rewrite !elem_of_cons, IH. split.
    + intros [->|[Hx Hne]]; [by split; [left|]|by split; [right|]].
    + intros [[->|Hx] Hne]; [by left|by right].
Qed.

Lemma clean_entry_absent s k :
  layersRenderers s !! k = None → clean_entry s k = s.
Proof. unfold clean_entry. by intros ->. Qed.

Lemma clean_entry_used s k r :
  layersRenderers s !! k = Some r → get_wasUsed s r = true →
  clean_entry s k = set_wasUsed r false s.
Proof. unfold clean_entry. by intros -> ->. Qed.

Lemma clean_entry_unused s k r :
  layersRenderers s !! k = Some r → get_wasUsed s r = false →
  clean_entry s k
  = set_layersRenderers (delete k)
      (record (LayerRenderer_delete r) (removeChild r s)).
Proof. unfold clean_entry. by intros -> ->. Qed.

Lemma clean_entry_step s k :
  linked s →
  linked (clean_entry s k)
  ∧ zOrder (clean_entry s k) = zOrder s
  ∧ nextRef (clean_entry s k) = nextRef s
  ∧ pixiContainer (clean_entry s k) `sublist_of` pixiContainer s
  ∧ (∀ n, n ≠ k → layersRenderers (clean_entry s k) !! n = layersRenderers s !! n)
  ∧ (∀ n r, n ≠ k → layersRenderers s !! n = Some r →
       heap (clean_entry s k) !! r = heap s !! r)
  ∧ layersRenderers (clean_entry s k) !! k = swept s k
  ∧ (∀ r, swept s k = Some r → heap (clean_entry s k) !! r = unmark <$> heap s !! r)
  ∧ calls (clean_entry s k) = calls s ++ clean_calls s [k].
Proof.
  intros Hs. pose proof Hs as [Hinj Hheap Hfresh Hnd Hch].
  unfold swept, clean_calls. simpl. rewrite app_nil_r.
  destruct (layersRenderers s !! k) as [r|] eqn:Hk.
  2:{ rewrite clean_entry_absent by done. rewrite app_nil_r.
      split_and!; try done. }
  destruct (get_wasUsed s r) eqn:Hu.
  - rewrite (clean_entry_used _ _ _ Hk Hu). simpl. rewrite app_nil_r.
    split_and!; try done.
    + split; simpl; try done.
      intros n r' Hn. destruct (decide (r' = r)) as [->|Hne].
      * rewrite lookup_alter_eq. destruct (Hheap _ _ Hk) as [o ->]. by eexists.
      * rewrite lookup_alter_ne by done. eauto.
    + intros n r' Hne Hn. rewrite lookup_alter_ne; [done|].
      intros <-. by apply Hne, (Hinj n k r).
    + intros r' [= <-]. by rewrite lookup_alter_eq.
  - rewrite (clean_entry_unused _ _ _ Hk Hu). simpl.
    split_and!; try done.
    + split; simpl.
      * intros n1 n2 r'. rewrite !lookup_delete.
        repeat case_decide; try done. apply Hinj.
      * intros n r'. rewrite lookup_delete. case_decide; [done|]. apply Hheap.
      * intros n r'. rewrite lookup_delete. case_decide; [done|]. apply Hfresh.
      * eapply sublist_NoDup; [done|apply remove_first_sublist].
      * intros r'. rewrite elem_of_remove_first, Hch by done. split.
        -- intros [[n Hn] Hne]. exists n. rewrite lookup_delete_ne; [done|].
           intros <-. congruence.
        -- intros [n Hn]. rewrite lookup_delete in Hn.
           case_decide; [done|]. split; [eauto|].
           intros ->. by eapply H, Hinj.
    + apply remove_first_sublist.
    + intros n Hne. by rewrite lookup_delete_ne.
    + by rewrite lookup_delete_eq.
    + by rewrite <- app_assoc.
Qed.

#[local] Arguments clean_calls : simpl never.

Lemma clean_calls_cons s k ks :
  clean_calls s (k :: ks) = clean_calls s [k] ++ clean_calls s ks.
Proof. unfold clean_calls. simpl. by rewrite app_nil_r. Qed.

Lemma clean_calls_ext s1 s2 ks :
  (∀ n, n ∈ ks → layersRenderers s1 !! n = layersRenderers s2 !! n) →
  (∀ n r, n ∈ ks → layersRenderers s2 !! n = Some r →
     heap s1 !! r = heap s2 !! r) →
  clean_calls s1 ks = clean_calls s2 ks.
Proof.
  intros Hm Hh. induction ks as [|k ks IH]; [done|].
  rewrite (clean_calls_cons s1), (clean_calls_cons s2), IH.
  - f_equal. unfold clean_calls. simpl. rewrite !app_nil_r.
    rewrite Hm by by left. destruct (layersRenderers s2 !! k) as [r|] eqn:E; [|done].
    unfold get_wasUsed. by rewrite (Hh k r) by (done || by left).
  - intros n Hn. apply Hm. by right.
  - intros n r Hn. apply Hh. by right.
Qed.

Lemma clean_fold ks : ∀ s,
  linked s → NoDup ks →
  linked (foldl clean_entry s ks)
  ∧ zOrder (foldl clean_entry s ks) = zOrder s
  ∧ nextRef (foldl clean_entry s ks) = nextRef s
  ∧ pixiContainer (foldl clean_entry s ks) `sublist_of` pixiContainer s
  ∧ (∀ n, n ∉ ks →
       layersRenderers (foldl clean_entry s ks) !! n = layersRenderers s !! n)
  ∧ (∀ n r, n ∉ ks → layersRenderers s !! n = Some r →
       heap (foldl clean_entry s ks) !! r = heap s !! r)
  ∧ (∀ n, n ∈ ks → layersRenderers (foldl clean_entry s ks) !! n = swept s n)
  ∧ (∀ n r, n ∈ ks → swept s n = Some r →
       heap (foldl clean_entry s ks) !! r = unmark <$> heap s !! r)
  ∧ calls (foldl clean_entry s ks) = calls s ++ clean_calls s ks.
Proof.
  induction ks as [|k ks IH]; intros s Hs Hnd; simpl.
  { split_and!; try done.
    - intros n ?%elem_of_nil. done.
    - intros n r ?%elem_of_nil. done.
    - unfold clean_calls. simpl. by rewrite app_nil_r. }
  apply NoDup_cons in Hnd as [Hk Hnd].
  destruct (clean_entry_step s k Hs)
    as (Hs1 & Hz1 & Hn1 & Hsub1 & Hoth1 & Hheap1 & Hk1 & Hku1 & Hc1).
  destruct (IH (clean_entry s k) Hs1 Hnd)
    as (Hs2 & Hz2 & Hn2 & Hsub2 & Hout2 & Hheap2 & Hin2 & Hu2 & Hc2).
  assert (∀ n, n ∈ ks → swept (clean_entry s k) n = swept s n) as Hsw.
  { intros n Hn. assert (n ≠ k) as Hne by (by intros ->).
    unfold swept. rewrite Hoth1 by done.
    destruct (layersRenderers s !! n) as [r|] eqn:E; [|done].
    unfold get_wasUsed. by rewrite (Hheap1 n r). }
  split_and!.
  - done.
  - congruence.
  - congruence.
  - by etrans.
  - intros n [Hne Hni]%not_elem_of_cons. by rewrite Hout2, Hoth1.
  - intros n r [Hne Hni]%not_elem_of_cons Hn.
    rewrite (Hheap2 n r), (Hheap1 n r); [done..|]. by rewrite Hoth1.
  - intros n [->|Hn]%elem_of_cons.
    + by rewrite Hout2.
    + by rewrite Hin2, Hsw.
  - intros n r [->|Hn]%elem_of_cons Hr.
    + rewrite (Hheap2 k r), Hku1; [done..|]. by rewrite Hk1.
    + assert (n ≠ k) as Hne by (by intros ->).
      rewrite (Hu2 n r) by (by rewrite ?Hsw).
      f_equal. apply (Hheap1 n r); [done|].
      unfold swept in Hr. destruct (layersRenderers s !! n); [|done].
      by case_match; simplify_eq.
  - rewrite Hc2, Hc1, (clean_calls_cons s k ks), <- app_assoc. do 2 f_equal.
    apply clean_calls_ext.
    + intros n Hn. apply Hoth1. by intros ->.
    + intros n r Hn Hr. apply (Hheap1 n r); [by intros ->|done].
Qed.

Lemma elem_of_own_keys s n : n ∈ own_keys s ↔ is_Some (layersRenderers s !! n).
Proof.
  unfold own_keys. rewrite list_elem_of_fmap. split.
  - intros ([n' r] & -> & Hnr). apply elem_of_map_to_list in Hnr. by exists r.
  - intros [r Hr]. exists (n, r). split; [done|]. by apply elem_of_map_to_list.
Qed.

Lemma own_keys_NoDup s : NoDup (own_keys s).
Proof. apply NoDup_fst_map_to_list. Qed.

(** The cleanup keeps exactly the marked entries, with their mark reset, and
    tears down the others. *)
Lemma clean_spec s :
  linked s →
  linked (_cleanUnusedLayerRenderers s)
  ∧ zOrder (_cleanUnusedLayerRenderers s) = zOrder s
  ∧ nextRef (_cleanUnusedLayerRenderers s) = nextRef s
  ∧ pixiContainer (_cleanUnusedLayerRenderers s) `sublist_of` pixiContainer s
  ∧ (∀ n, layersRenderers (_cleanUnusedLayerRenderers s) !! n = swept s n)
  ∧ (∀ n r, swept s n = Some r →
       heap (_cleanUnusedLayerRenderers s) !! r = unmark <$> heap s !! r)
  ∧ calls (_cleanUnusedLayerRenderers s)
    = calls s ++ clean_calls s (own_keys s).
Proof.
  intros Hs. unfold _cleanUnusedLayerRenderers.
  destruct (clean_fold (own_keys s) s Hs (own_keys_NoDup s))
    as (H1 & H2 & H3 & H4 & H5 & H6 & H7 & H8 & H9).
  split_and!; try done.
  - intros n. destruct (decide (n ∈ own_keys s)) as [Hn|Hn]; [by apply H7|].
    rewrite H5 by done. unfold swept.
    rewrite elem_of_own_keys, <- eq_None_not_Some in Hn. by rewrite Hn.
  - intros n r Hr. apply (H8 n); [|done].
    apply elem_of_own_keys. unfold swept in Hr.
    destruct (layersRenderers s !! n); [by eexists|done].
Qed.

Lemma clean_idle s : linked s → idle (_cleanUnusedLayerRenderers s).
Proof.
  intros Hs n r Hn.
  destruct (clean_spec s Hs) as (_ & _ & _ & _ & Hm & Hh & _).
  rewrite Hm in Hn. unfold get_wasUsed. rewrite (Hh n r Hn).
  by destruct (heap s !! r).
Qed.

(** ** [render] as a whole *)

Lemma reconcile_linked layout s : linked s → linked (reconcile layout s).
Proof.
  intros Hs. unfold reconcile.
  by apply clean_spec, updateZOrder_linked, reconcile_layers_linked.
Qed.

Lemma reconcile_idle layout s : linked s → idle (reconcile layout s).
Proof.
  intros Hs. unfold reconcile.
  by apply clean_idle, updateZOrder_linked, reconcile_layers_linked.
Qed.




(** The entries after a pass are the entries the loop ended with for the
    names of the layout. *)
Lemma reconcile_lookup layout s n r :
  linked s → idle s →
  layersRenderers (reconcile layout s) !! n = Some r
  ↔ n ∈ layerNames layout
    ∧ layersRenderers (reconcile_layers 0 layout s) !! n = Some r.
Proof.
  intros Hs Hidle. unfold reconcile.
  set (s1 := reconcile_layers 0 layout s).
  assert (linked s1) as Hs1 by by apply reconcile_layers_linked.
  destruct (clean_spec _ (updateZOrder_linked s1 Hs1)) as (_ & _ & _ & _ & Hm & _).
  destruct (updateZOrder_frame s1) as (Hm1 & _).
  rewrite Hm. unfold swept. rewrite Hm1.
  destruct (layersRenderers s1 !! n) as [r1|] eqn:Hn.
  2:{ split; [done|]. by intros [_ ?]. }
  rewrite updateZOrder_get_wasUsed. subst s1.
  destruct (decide (n ∈ layerNames layout)) as [Hin|Hni].
  - rewrite (reconcile_layers_used layout 0 s n r1) by done. by split; [|intros [_ ?]].
  - rewrite (reconcile_layers_unused layout 0 s n r1) by done. by split; [|intros [? _]].
Qed.

Lemma reconcile_dom layout s :
  linked s → idle s →
  dom (layersRenderers (reconcile layout s)) = list_to_set (layerNames layout).
Proof.
  intros Hs Hidle. apply set_eq. intros n.
  rewrite elem_of_dom, elem_of_list_to_set. split.
  - intros [r Hr]. by apply reconcile_lookup in Hr as [? _].
  - intros Hn. destruct (reconcile_layers_in layout 0 s n Hn) as [r Hr].
    exists r. by apply reconcile_lookup.
Qed.

Lemma StronglySorted_sublist {A} (R : relation A) (l1 l2 : list A) :
  l1 `sublist_of` l2 → StronglySorted R l2 → StronglySorted R l1.
Proof.
  induction 1 as [|x l1 l2 Hsub IH|x l1 l2 Hsub IH]; intros Hl2; [done|..].
  - apply StronglySorted_cons in Hl2 as [Hx Hl2].
    apply StronglySorted_cons. split; [|by apply IH].
    rewrite Forall_forall in *. intros y Hy. apply Hx.
    by eapply elem_of_sublist.
  - apply StronglySorted_cons in Hl2 as [_ Hl2]. by apply IH.
Qed.

Lemma StronglySorted_lookup {A} (R : relation A) (l : list A) :
  StronglySorted R l ↔
  ∀ i j x y, i < j → l !! i = Some x → l !! j = Some y → R x y.
Proof.
  induction l as [|a l IH].
  { split; [by intros _ i j x y _ ?|constructor]. }
  rewrite StronglySorted_cons, IH, Forall_forall. split.
  - intros [Ha Hl] i j x y Hij Hi Hj.
    destruct j as [|j]; [lia|]. destruct i as [|i]; simpl in *.
    + simplify_eq. apply Ha. by eapply list_elem_of_lookup_2.
    + apply (Hl i j); [lia|done..].
  - intros H. split.
    + intros y [j Hj]%list_elem_of_lookup. apply (H 0 (S j)); [lia|done..].
    + intros i j x y Hij Hi Hj. apply (H (S i) (S j)); [lia|done..].
Qed.

Lemma layerNames_lookup_inj layout k k' l l' :
  NoDup (layerNames layout) →
  layout !! k = Some l → layout !! k' = Some l' →
  getName l = getName l' → k = k'.
Proof.
  intros Hnd Hk Hk' Hname.
  eapply NoDup_lookup; [exact Hnd| |].
  - unfold layerNames. by rewrite list_lookup_fmap, Hk.
  - unfold layerNames. rewrite list_lookup_fmap, Hk'. simpl. by rewrite Hname.
Qed.

(** The entry of a layer after a pass: it is bound to the layer object of the
    last layer of that name, it is unmarked, its drawable has the position of
    that layer as [zOrder], and it is the entry of before the pass when
    there was one, a renderer constructed during the pass otherwise. *)
Lemma reconcile_entry layout s k l :
  linked s → idle s →
  layout !! k = Some l →
  (∀ k' l', k < k' → layout !! k' = Some l' → getName l' ≠ getName l) →
  ∃ r, layersRenderers (reconcile layout s) !! getName l = Some r
     ∧ heap (reconcile layout s) !! r = Some {| layer := l; wasUsed := false |}
     ∧ zOrder (reconcile layout s) !! r = Some (Z.of_nat k)
     ∧ r ∈ pixiContainer (reconcile layout s)
     ∧ (layersRenderers s !! getName l = Some r
        ∨ (layersRenderers s !! getName l = None ∧ nextRef s ≤ r)).
Proof.
  intros Hs Hidle Hk Hlast.
  destruct (reconcile_layers_last layout 0 s k l Hs Hk Hlast) as (r & Hr & Hh & Hz).
  assert (getName l ∈ layerNames layout) as Hin.
  { apply list_elem_of_fmap. exists l. split; [done|].
    by eapply list_elem_of_lookup_2. }
  assert (layersRenderers (reconcile layout s) !! getName l = Some r) as Hr'
    by by apply reconcile_lookup.
  exists r. split_and!; [done| | | |].
  - unfold reconcile in *.
    set (s1 := reconcile_layers 0 layout s) in *.
    assert (linked s1) as Hs1 by by apply reconcile_layers_linked.
    destruct (clean_spec _ (updateZOrder_linked s1 Hs1))
      as (_ & _ & _ & _ & Hm & Hheap & _).
    rewrite Hm in Hr'. rewrite (Hheap _ _ Hr').
    destruct (updateZOrder_frame s1) as (_ & -> & _). by rewrite Hh.
  - unfold reconcile.
    set (s1 := reconcile_layers 0 layout s) in *.
    assert (linked s1) as Hs1 by by apply reconcile_layers_linked.
    destruct (clean_spec _ (updateZOrder_linked s1 Hs1)) as (_ & -> & _).
    by apply updateZOrder_Some.
  - apply (linked_children _ (reconcile_linked layout s Hs)). eauto.
  - apply reconcile_layers_origin in Hr as [?|(? & _ & ?)]; eauto.
Qed.

Lemma reconcile_children_sorted layout s :
  linked s →
  StronglySorted (zOrder_le (zOrder (reconcile layout s)))
    (pixiContainer (reconcile layout s)).
Proof.
  intros Hs. unfold reconcile.
  set (s1 := reconcile_layers 0 layout s).
  assert (linked s1) as Hs1 by by apply reconcile_layers_linked.
  destruct (clean_spec _ (updateZOrder_linked s1 Hs1))
    as (_ & -> & _ & Hsub & _).
  eapply StronglySorted_sublist; [exact Hsub|]. apply updateZOrder_sorted.
Qed.

(** After a pass over a layout with distinct names, the children of the
    root container are the drawables of the layers, in layout order. *)
Lemma reconcile_children layout s :
  linked s → idle s → NoDup (layerNames layout) →
  pixiContainer (reconcile layout s) = layer_drawables (reconcile layout s) layout.
Proof.
  intros Hs Hidle Hnd.
  set (s' := reconcile layout s).
  assert (linked s') as Hs' by by apply reconcile_linked.
  assert (∀ k r, layer_drawables s' layout !! k = Some r →
            zOrder s' !! r = Some (Z.of_nat k)
            ∧ ∃ n, layersRenderers s' !! n = Some r) as Hd.
  { intros k r Hk. unfold layer_drawables in Hk.
    rewrite list_lookup_fmap in Hk.
    destruct (layout !! k) as [l|] eqn:Hl; [|done]. simpl in Hk.
    destruct (reconcile_entry layout s k l Hs Hidle Hl) as (r' & Hr' & _ & Hz & _).
    { intros k' l' Hlt Hl' Hname.
      pose proof (layerNames_lookup_inj _ _ _ _ _ Hnd Hl Hl' (eq_sym Hname)). lia. }
    fold s' in Hr', Hz. rewrite (renderer_for_Some _ _ _ Hr') in Hk.
    simplify_eq. eauto. }
  assert (∀ i j x, layer_drawables s' layout !! i = Some x →
            layer_drawables s' layout !! j = Some x → i = j) as Hinj.
  { intros i j x Hi Hj. apply Hd in Hi as [Hi _], Hj as [Hj _].
    rewrite Hi in Hj. simplify_eq. lia. }
  assert (∀ x, x ∈ pixiContainer s' ↔ x ∈ layer_drawables s' layout) as Hmem.
  { intros x. rewrite (linked_children _ Hs'). split.
    - intros [n Hn]. pose proof Hn as [Hin _]%reconcile_lookup; [|done..].
      apply list_elem_of_fmap in Hin as (l & -> & Hl).
      apply list_elem_of_fmap. exists l. split; [|done].
      by rewrite (renderer_for_Some _ _ _ Hn).
    - intros [k Hk]%list_elem_of_lookup. by apply Hd in Hk as [_ ?]. }
  apply (StronglySorted_unique_strong (zOrder_le (zOrder s'))).
  - intros x1 x2 Hx1 [j Hj]%list_elem_of_lookup H12 H21.
    apply Hmem in Hx1 as [i Hi]%list_elem_of_lookup.
    pose proof (Hd _ _ Hi) as [Hzi _]. pose proof (Hd _ _ Hj) as [Hzj _].
    unfold zOrder_le, zOrder_or_0 in H12, H21. rewrite Hzi, Hzj in *. simpl in *.
    assert (i = j) by lia. subst. congruence.
  - by apply reconcile_children_sorted.
  - apply StronglySorted_lookup. intros i j x y Hij Hi Hj.
    apply Hd in Hi as [Hi _], Hj as [Hj _].
    unfold zOrder_le, zOrder_or_0. rewrite Hi, Hj. simpl. lia.
  - apply NoDup_Permutation; [apply (linked_NoDup _ Hs')| |done].
    apply NoDup_alt. exact Hinj.
Qed.

(** ** The calls of a pass *)

Lemma new_calls_app s s' cs : calls s' = calls s ++ cs → new_calls s s' = cs.
Proof. unfold new_calls. intros ->. by rewrite drop_app_length. Qed.

Lemma reconcile_layers_calls layers : ∀ i s,
  calls (reconcile_layers i layers s) = calls s ++ loop_calls i layers s.
Proof.
  induction layers as [|l layers IH]; intros i s; simpl.
  { by rewrite app_nil_r. }
  by rewrite IH, reconcile_layer_calls, <- app_assoc.
Qed.

Lemma reconcile_calls layout s :
  linked s →
  calls (reconcile layout s)
  = calls s ++ loop_calls 0 layout s
      ++ clean_calls (_updatePixiObjectsZOrder (reconcile_layers 0 layout s))
           (own_keys (_updatePixiObjectsZOrder (reconcile_layers 0 layout s))).
Proof.
  intros Hs. unfold reconcile.
  set (s1 := reconcile_layers 0 layout s).
  assert (linked s1) as Hs1 by by apply reconcile_layers_linked.
  destruct (clean_spec _ (updateZOrder_linked s1 Hs1)) as (_ & _ & _ & _ & _ & _ & ->).
  destruct (updateZOrder_frame s1) as (_ & _ & _ & ->).
  subst s1. by rewrite reconcile_layers_calls, <- app_assoc.
Qed.





(** The loop constructs renderers, attaches their drawables and asks the
    renderers to render; a renderer is constructed only for a name that has
    no entry, and it is a fresh object. *)
Lemma loop_calls_elem layers : ∀ i s c,
  c ∈ loop_calls i layers s →
  (∃ r, c = LayerRenderer_render r)
  ∨ (∃ r, c = Container_addChild r)
  ∨ (∃ r l, c = new_LayerRenderer r l
            ∧ layersRenderers s !! getName l = None ∧ nextRef s ≤ r).
Proof.
  induction layers as [|l layers IH]; intros i s c Hc; simpl in *.
  { by apply elem_of_nil in Hc. }
  apply elem_of_app in Hc as [Hc|Hc].
  - unfold layer_calls in Hc.
    destruct (layersRenderers s !! getName l) as [r|] eqn:E.
    + apply list_elem_of_singleton in Hc. eauto.
    + rewrite !elem_of_cons in Hc.
      destruct Hc as [->|[->|[->|Hc]]]; [|eauto|eauto|by apply elem_of_nil in Hc].
      right; right. by exists (nextRef s), l.
  - apply IH in Hc as [?|[?|(r & l' & -> & Hl' & Hle)]]; [eauto..|].
    right; right. exists r, l'. split_and!; [done| |].
    + destruct (layersRenderers s !! getName l') as [r'|] eqn:E; [|done].
      by rewrite (reconcile_layer_kept i l s _ _ E) in Hl'.
    + pose proof (reconcile_layer_nextRef_le i l s). lia.
Qed.

(** An entry the loop adds was constructed by the loop. *)
Lemma loop_calls_constructed layers : ∀ i s n r,
  layersRenderers s !! n = None →
  layersRenderers (reconcile_layers i layers s) !! n = Some r →
  ∃ l, getName l = n ∧ new_LayerRenderer r l ∈ loop_calls i layers s.
Proof.
  induction layers as [|l layers IH]; intros i s n r Hn Hr; simpl in *.
  { congruence. }
  destruct (decide (getName l = n)) as [<-|Hne].
  - assert (layersRenderers (reconcile_layer i l s) !! getName l = Some (nextRef s)) as Hl
      by by rewrite reconcile_layer_map, lookup_insert_eq, (renderer_for_None _ _ Hn).
    rewrite (reconcile_layers_kept _ _ _ _ _ Hl) in Hr. simplify_eq.
    exists l. split; [done|]. apply elem_of_app. left.
    unfold layer_calls. rewrite Hn. by left.
  - destruct (IH (S i) (reconcile_layer i l s) n r) as (l' & ? & ?); [|done|].
    + by rewrite reconcile_layer_map, lookup_insert_ne.
    + exists l'. split; [done|]. apply elem_of_app. by right.
Qed.

Lemma elem_of_clean_calls s ks c :
  c ∈ clean_calls s ks ↔
  ∃ n r, n ∈ ks ∧ layersRenderers s !! n = Some r ∧ get_wasUsed s r = false
         ∧ (c = Container_removeChild r ∨ c = LayerRenderer_delete r).
Proof.
  unfold clean_calls. rewrite list_elem_of_bind. split.
  - intros (n & Hc & Hn). destruct (layersRenderers s !! n) as [r|] eqn:E.
    2:{ by apply elem_of_nil in Hc. }
    destruct (get_wasUsed s r) eqn:Hu.
    { by apply elem_of_nil in Hc. }
    exists n, r. split_and!; [done..|].
    rewrite !elem_of_cons in Hc.
    destruct Hc as [->|[->|Hc]]; [by left|by right|by apply elem_of_nil in Hc].
  - intros (n & r & Hn & Hr & Hu & Hc). exists n. split; [|done].
    rewrite Hr, Hu. rewrite !elem_of_cons. destruct Hc as [->| ->]; eauto.
Qed.




Lemma reconcile_calls_prefix layout s :
  linked s → calls s `prefix_of` calls (reconcile layout s).
Proof. intros Hs. rewrite reconcile_calls by done. by eexists. Qed.




(** A pass constructs renderers only for names without an entry. *)
Lemma reconcile_constructs layout s r l :
  linked s →
  new_LayerRenderer r l ∈ new_calls s (reconcile layout s) →
  layersRenderers s !! getName l = None ∧ nextRef s ≤ r.
Proof.
  intros Hs. rewrite (new_calls_app _ _ _ (reconcile_calls layout s Hs)).
  intros [Hc|Hc]%elem_of_app.
  - apply loop_calls_elem in Hc as [[? ?]|[[? ?]|(r' & l' & ? & ? & ?)]];
      by simplify_eq.
  - apply elem_of_clean_calls in Hc as (? & ? & _ & _ & _ & [?|?]); done.
Qed.



(** ** Loops that only call the renderers *)

(** A [for ... in] loop whose body calls [c] on the renderer of each key. *)
Lemma record_fold (c : ref → Call)
    (f : InstancesRenderer → string → InstancesRenderer) :
  (∀ s i, f s i = match layersRenderers s !! i with
                  | Some r => record (c r) s
                  | None => s
                  end) →
  ∀ ks s,
    foldl f s ks
    = {| layersRenderers := layersRenderers s; pixiContainer := pixiContainer s;
         heap := heap s; zOrder := zOrder s; nextRef := nextRef s;
         Object_prototype_extended := Object_prototype_extended s;
         calls := calls s ++ (c <$> omap (λ n, layersRenderers s !! n) ks) |}.
Proof.
  intros Hf. induction ks as [|k ks IH]; intros s; simpl.
  { rewrite app_nil_r. by destruct s. }
  rewrite IH, Hf. destruct (layersRenderers s !! k) as [r|]; simpl; [|done].
  by rewrite <- app_assoc.
Qed.

Lemma own_keys_renderers s :
  omap (λ n, layersRenderers s !! n) (own_keys s) = entry_renderers s.
Proof.
  unfold own_keys, entry_renderers.
  assert (∀ nr, nr ∈ map_to_list (layersRenderers s) →
            layersRenderers s !! nr.1 = Some nr.2) as Hall.
  { intros [n r] Hnr. by apply elem_of_map_to_list in Hnr. }
  induction (map_to_list (layersRenderers s)) as [|[n r] l IH]; simpl; [done|].
  pose proof (Hall (n, r)) as Hhead. simpl in Hhead.
  rewrite Hhead by by left. simpl. f_equal.
  apply IH. intros nr Hnr. apply Hall. by right.
Qed.

Lemma elem_of_entry_renderers s r :
  r ∈ entry_renderers s ↔ ∃ n, layersRenderers s !! n = Some r.
Proof.
  unfold entry_renderers. rewrite list_elem_of_fmap. split.
  - intros ([n r'] & -> & Hnr). apply elem_of_map_to_list in Hnr. eauto.
  - intros [n Hn]. exists (n, r). split; [done|]. by apply elem_of_map_to_list.
Qed.

Lemma entry_renderers_NoDup s : linked s → NoDup (entry_renderers s).
Proof.
  intros Hs. unfold entry_renderers.
  apply NoDup_fmap_2_strong; [|apply NoDup_map_to_list].
  intros [n1 r1] [n2 r2] H1%elem_of_map_to_list H2%elem_of_map_to_list Heq.
  simpl in Heq. subst r2. f_equal. by apply (linked_inj s Hs n1 n2 r1).
Qed.

Lemma times_app c cs1 cs2 : times c (cs1 ++ cs2) = times c cs1 + times c cs2.
Proof. apply count_occ_app. Qed.

Lemma times_NoDup_1 c cs : NoDup cs → c ∈ cs → times c cs = 1.
Proof.
  intros Hnd%NoDup_ListNoDup Hc. unfold times.
  by apply (proj1 (NoDup_count_occ' Call_eq_dec cs) Hnd), list_elem_of_In.
Qed.

Lemma times_NoDup_le c cs : NoDup cs → times c cs ≤ 1.
Proof.
  intros Hnd%NoDup_ListNoDup. apply (proj1 (NoDup_count_occ Call_eq_dec cs) Hnd).
Qed.

Lemma times_0 c cs : c ∉ cs → times c cs = 0.
Proof. rewrite list_elem_of_In. apply count_occ_not_In. Qed.

Lemma delete_layers_eq s :
  delete_layers s
  = {| layersRenderers := layersRenderers s; pixiContainer := pixiContainer s;
       heap := heap s; zOrder := zOrder s; nextRef := nextRef s;
         Object_prototype_extended := Object_prototype_extended s;
       calls := calls s ++ (LayerRenderer_delete <$> entry_renderers s) |}.
Proof.
  unfold delete_layers.
  by rewrite (record_fold LayerRenderer_delete delete_entry), own_keys_renderers.
Qed.

Lemma delete_new_calls s :
  new_calls s (InstancesRenderer_delete s)
  = (LayerRenderer_delete <$> entry_renderers s) ++ [Container_destroy].
Proof.
  apply new_calls_app. unfold InstancesRenderer_delete.
  rewrite delete_layers_eq. simpl. by rewrite <- app_assoc.
Qed.

Lemma reset_eq objectName s :
  resetInstanceRenderersFor objectName s
  = {| layersRenderers := layersRenderers s; pixiContainer := pixiContainer s;
       heap := heap s; zOrder := zOrder s; nextRef := nextRef s;
         Object_prototype_extended := Object_prototype_extended s;
       calls := calls s
                  ++ ((λ r, LayerRenderer_resetInstanceRenderersFor r objectName)
                        <$> entry_renderers s) |}.
Proof.
  unfold resetInstanceRenderersFor.
  by rewrite (record_fold (λ r, LayerRenderer_resetInstanceRenderersFor r objectName)
                (reset_entry objectName)), own_keys_renderers.
Qed.

(** When [delete()] runs, the renderer of an entry is torn down once. *)
Lemma delete_calls_once s n r :
  linked s → layersRenderers s !! n = Some r →
  times (LayerRenderer_delete r) (new_calls s (InstancesRenderer_delete s)) = 1.
Proof.
  intros Hs Hn. rewrite delete_new_calls, times_app, times_NoDup_1.
  - rewrite times_0; [done|]. by intros [=]%list_elem_of_singleton.
  - apply (NoDup_fmap_2 LayerRenderer_delete). by apply entry_renderers_NoDup.
  - apply list_elem_of_fmap_2, elem_of_entry_renderers. eauto.
Qed.

(** ** The dictionary and the root container in the reachable states *)

Lemma linked_children_renderers s :
  linked s → pixiContainer s ≡ₚ entry_renderers s.
Proof.
  intros Hs. apply NoDup_Permutation.
  - apply (linked_NoDup s Hs).
  - by apply entry_renderers_NoDup.
  - intros r. by rewrite (linked_children s Hs), elem_of_entry_renderers.
Qed.

Lemma linked_children_length s :
  linked s → length (pixiContainer s) = size (layersRenderers s).
Proof.
  intros Hs. rewrite (linked_children_renderers s Hs).
  unfold entry_renderers. by rewrite length_fmap, length_map_to_list.
Qed.


Lemma new_calls_prefix_iff s s1 s2 c :
  calls s `prefix_of` calls s1 → calls s1 `prefix_of` calls s2 →
  c ∈ new_calls s s2 ↔ c ∈ new_calls s s1 ∨ c ∈ new_calls s1 s2.
Proof.
  intros [x Hx] [y Hy].
  rewrite (new_calls_app s1 s2 y Hy), (new_calls_app s s1 x Hx).
  rewrite (new_calls_app s s2 (x ++ y)) by by rewrite Hy, Hx, app_assoc.
  apply elem_of_app.
Qed.

(** ** More on the sort *)

Lemma sort_children_sorted_id z ch :
  StronglySorted (zOrder_le z) ch → sort_children z ch = ch.
Proof.
  induction 1 as [|a ch Hch IH Ha]; simpl; [done|].
  rewrite IH. destruct ch as [|b ch]; simpl; [done|].
  apply Forall_cons in Ha as [Hab _]. unfold zOrder_le in Hab.
  unfold compareZOrder. case_decide; [done|lia].
Qed.

Lemma coalesce_zOrders_lookup ch z c :
  c ∈ ch → coalesce_zOrders ch z !! c = Some (zOrder_or_0 z c).
Proof.
  induction ch as [|b ch IH]; simpl.
  { by intros ?%elem_of_nil. }
  intros Hc. rewrite lookup_insert. case_decide as Hbc.
  - subst. by rewrite coalesce_zOrders_or_0.
  - apply IH. apply elem_of_cons in Hc as [->|Hc]; done.
Qed.

Lemma coalesce_zOrders_other ch z c :
  c ∉ ch → coalesce_zOrders ch z !! c = z !! c.
Proof.
  induction ch as [|b ch IH]; simpl; [done|].
  intros [Hne Hni]%not_elem_of_cons. by rewrite lookup_insert_ne, IH.
Qed.

Lemma coalesce_zOrders_defined ch z :
  (∀ c, c ∈ ch → is_Some (z !! c)) → coalesce_zOrders ch z = z.
Proof.
  induction ch as [|b ch IH]; simpl; [done|].
  intros Hall. rewrite IH by (intros c Hc; apply Hall; by right).
  destruct (Hall b) as [v Hv]; [by left|].
  apply insert_id. unfold zOrder_or_0. by rewrite Hv.
Qed.

(** ** Passes that construct nothing, passes that construct everything *)



Lemma clean_calls_nil s ks :
  (∀ n r, n ∈ ks → layersRenderers s !! n = Some r → get_wasUsed s r = true) →
  clean_calls s ks = [].
Proof.
  intros Hall. apply elem_of_nil_inv. intros c.
  rewrite elem_of_clean_calls. intros (n & r & Hn & Hr & Hu & _).
  rewrite (Hall n r Hn Hr) in Hu. done.
Qed.

Lemma loop_calls_absent layers : ∀ i s,
  NoDup (layerNames layers) →
  (∀ l, l ∈ layers → layersRenderers s !! getName l = None) →
  loop_calls i layers s = first_pass_calls (nextRef s) layers
  ∧ ∀ k l, layers !! k = Some l →
      layersRenderers (reconcile_layers i layers s) !! getName l
      = Some (nextRef s + k).
Proof.
  induction layers as [|l layers IH]; intros i s Hnd Hall; simpl in *.
  { split; [done|]. by intros k l ?. }
  apply NoDup_cons in Hnd as [Hl Hnd].
  assert (layersRenderers s !! getName l = None) as Hnone by (apply Hall; by left).
  assert (nextRef (reconcile_layer i l s) = S (nextRef s)) as Hnext
    by by rewrite reconcile_layer_nextRef, Hnone.
  destruct (IH (S i) (reconcile_layer i l s) Hnd) as [IH1 IH2].
  { intros l' Hl'. rewrite reconcile_layer_map, lookup_insert_ne.
    - apply Hall. by right.
    - intros Heq. apply Hl. rewrite Heq. by apply list_elem_of_fmap_2. }
  split.
  - rewrite IH1, Hnext. unfold layer_calls. by rewrite Hnone.
  - intros k l' Hk. destruct k as [|k]; simpl in Hk.
    + simplify_eq. apply reconcile_layers_kept.
      rewrite reconcile_layer_map, lookup_insert_eq, (renderer_for_None _ _ Hnone).
      f_equal. lia.
    + rewrite (IH2 k l' Hk), Hnext. f_equal. lia.
Qed.


(** ** Teardown is final *)

Lemma teardown_is_final_no_delete cs :
  (∀ r, LayerRenderer_delete r ∉ cs) → teardown_is_final cs.
Proof.
  induction cs as [|c cs IH]; simpl; [done|].
  intros Hno. split.
  - intros r ->. destruct (Hno r). by left.
  - apply IH. intros r Hr. apply (Hno r). by right.
Qed.

Lemma teardown_is_final_app cs1 cs2 :
  teardown_is_final (cs1 ++ cs2) ↔
  teardown_is_final cs1 ∧ teardown_is_final cs2
  ∧ (∀ r, LayerRenderer_delete r ∈ cs1 →
       ∀ c, c ∈ cs2 → renderer_of c ≠ Some r).
Proof.
  induction cs1 as [|c cs1 IH]; simpl.
  { split; [|tauto]. intros H. split_and!; [done..|].
    by intros r ?%elem_of_nil. }
  rewrite IH. split.
  - intros (Hc & H1 & H2 & H12). split_and!; [|done..|].
    + intros r -> c' Hc'. apply (Hc r eq_refl). apply elem_of_app. by left.
    + intros r [Heq|Hr]%elem_of_cons c' Hc'.
      * apply (Hc r (eq_sym Heq)). apply elem_of_app. by right.
      * by apply (H12 r).
  - intros ((Hc & H1) & H2 & H12). split_and!; [|done..|].
    + intros r -> c' [Hc'|Hc']%elem_of_app.
      * by apply (Hc r).
      * apply (H12 r); [by left|done].
    + intros r Hr. apply H12. by right.
Qed.

Lemma teardown_is_final_split cs pre post r c :
  teardown_is_final cs → cs = pre ++ LayerRenderer_delete r :: post →
  c ∈ post → renderer_of c ≠ Some r.
Proof.
  intros Hcs ->. apply teardown_is_final_app in Hcs as (_ & [Hr _] & _).
  by apply Hr.
Qed.

Lemma teardown_is_final_times cs r :
  teardown_is_final cs → times (LayerRenderer_delete r) cs ≤ 1.
Proof.
  unfold times. induction cs as [|c cs IH]; simpl; [lia|].
  intros [Hc Hcs].
  destruct (Call_eq_dec c (LayerRenderer_delete r)) as [Heq|Hne].
  - subst c.
    rewrite (proj1 (count_occ_not_In Call_eq_dec cs (LayerRenderer_delete r))).
    + lia.
    + intros Hin%list_elem_of_In. by apply (Hc r eq_refl _ Hin).
  - by apply IH.
Qed.

(** The renderers the calls of a pass concern: entries of before the pass,
    or objects constructed during the pass. *)
Lemma loop_calls_renderers layers : ∀ i s c,
  linked s → c ∈ loop_calls i layers s →
  ∃ r, renderer_of c = Some r
     ∧ ((∃ n, layersRenderers s !! n = Some r) ∨ nextRef s ≤ r).
Proof.
  induction layers as [|l layers IH]; intros i s c Hs Hc; simpl in *.
  { by apply elem_of_nil in Hc. }
  apply elem_of_app in Hc as [Hc|Hc].
  - unfold layer_calls in Hc.
    destruct (layersRenderers s !! getName l) as [r|] eqn:E.
    + apply list_elem_of_singleton in Hc as ->. exists r. split; [done|]. eauto.
    + exists (nextRef s). split; [|by right].
      rewrite !elem_of_cons in Hc.
      destruct Hc as [->|[->|[->|Hc]]]; [done..|by apply elem_of_nil in Hc].
  - apply IH in Hc as (r & Hr & Hwhere); [|by apply reconcile_layer_linked].
    exists r. split; [done|].
    pose proof (reconcile_layer_nextRef_le i l s).
    destruct Hwhere as [[n Hn]|Hle]; [|right; lia].
    rewrite reconcile_layer_map, lookup_insert in Hn. case_decide; [|eauto].
    simplify_eq. unfold renderer_for.
    destruct (layersRenderers s !! getName l) eqn:E; simpl; [eauto|by right].
Qed.

Lemma clean_calls_final s ks :
  linked s → NoDup ks → teardown_is_final (clean_calls s ks).
Proof.
  intros Hs. induction 1 as [|k ks Hk Hnd IH].
  { by unfold clean_calls. }
  rewrite clean_calls_cons. apply teardown_is_final_app. split_and!; [|done|].
  - unfold clean_calls. simpl. rewrite app_nil_r.
    destruct (layersRenderers s !! k) as [r|]; [|done].
    destruct (get_wasUsed s r); simpl; [done|].
    split_and!; [done| |done]. intros r' _ c' Hc'. by apply elem_of_nil in Hc'.
  - intros r Hr c Hc Hcr.
    apply elem_of_clean_calls in Hr as (n1 & r1 & Hn1%list_elem_of_singleton & Hr1 & _ & Hc1).
    apply elem_of_clean_calls in Hc as (n2 & r2 & Hn2 & Hr2 & _ & Hc2).
    assert (r1 = r) as -> by (destruct Hc1; by simplify_eq).
    assert (r2 = r) as ->
      by (destruct Hc2 as [-> | ->]; simpl in Hcr; by simplify_eq).
    subst n1. by rewrite (linked_inj s Hs n2 k r) in Hn2.
Qed.

(** ** [resetInstanceRenderersFor] and the invariants *)

Lemma loop_calls_new_entry layers : ∀ i s r l,
  new_LayerRenderer r l ∈ loop_calls i layers s →
  l ∈ layers
  ∧ layersRenderers (reconcile_layers i layers s) !! getName l = Some r.
Proof.
  induction layers as [|l0 layers IH]; intros i s r l Hc; simpl in *.
  { by apply elem_of_nil in Hc. }
  apply elem_of_app in Hc as [Hc|Hc].
  - unfold layer_calls in Hc.
    destruct (layersRenderers s !! getName l0) as [r0|] eqn:E.
    { by apply list_elem_of_singleton in Hc. }
    rewrite !elem_of_cons in Hc.
    destruct Hc as [Hc|[Hc|[Hc|Hc]]]; [|done..|by apply elem_of_nil in Hc].
    simplify_eq. split; [by left|].
    apply reconcile_layers_kept.
    by rewrite reconcile_layer_map, lookup_insert_eq, (renderer_for_None _ _ E).
  - apply IH in Hc as [Hl Hr]. split; [by right|done].
Qed.

Lemma reset_calls_elem objectName s c :
  c ∈ calls (resetInstanceRenderersFor objectName s) ↔
  c ∈ calls s
  ∨ ∃ n r, layersRenderers s !! n = Some r
         ∧ c = LayerRenderer_resetInstanceRenderersFor r objectName.
Proof.
  rewrite reset_eq. simpl. rewrite elem_of_app, list_elem_of_fmap.
  split; (intros [?|H]; [by left|right]).
  - destruct H as (r & -> & [n Hn]%elem_of_entry_renderers). eauto.
  - destruct H as (n & r & Hn & ->). exists r. split; [done|].
    apply elem_of_entry_renderers. eauto.
Qed.

Lemma reset_linked objectName s :
  linked s → linked (resetInstanceRenderersFor objectName s).
Proof. intros Hs. rewrite reset_eq. by destruct Hs. Qed.

Lemma reset_retired objectName s :
  retired s → retired (resetInstanceRenderersFor objectName s).
Proof.
  intros Hret r Hr. apply reset_calls_elem in Hr as [Hr|(? & ? & _ & ?)]; [|done].
  rewrite reset_eq. by apply Hret.
Qed.

Lemma reset_accounted objectName s :
  accounted s → accounted (resetInstanceRenderersFor objectName s).
Proof.
  intros (Hnew & Hentry & Hdel). split_and!.
  - intros r l Hc. apply reset_calls_elem in Hc as [Hc|(? & ? & _ & ?)]; [|done].
    destruct (Hnew r l Hc) as [[n Hn]|Hd].
    + left. exists n. by rewrite reset_eq.
    + right. apply reset_calls_elem. by left.
  - intros n r Hn. rewrite reset_eq in Hn.
    destruct (Hentry n r Hn) as (l & Hl & Hc). exists l. split; [done|].
    apply reset_calls_elem. by left.
  - intros r Hd. apply reset_calls_elem in Hd as [Hd|(? & ? & _ & ?)]; [|done].
    destruct (Hdel r Hd) as [l Hl]. exists l. apply reset_calls_elem. by left.
Qed.

Lemma reset_final objectName s :
  retired s → teardown_is_final (calls s) →
  teardown_is_final (calls (resetInstanceRenderersFor objectName s)).
Proof.
  intros Hret Hfin. rewrite reset_eq. simpl.
  apply teardown_is_final_app. split_and!; [done| |].
  - apply teardown_is_final_no_delete.
    by intros r (? & ? & _)%list_elem_of_fmap.
  - intros r Hr c (r' & -> & [n Hn]%elem_of_entry_renderers)%list_elem_of_fmap.
    simpl. intros [= ->]. by apply (proj2 (Hret r Hr) n).
Qed.

Lemma session_snoc ops op : session (ops ++ [op]) = perform (session ops) op.
Proof. unfold session. by rewrite foldl_app. Qed.

Lemma times_pos c cs : c ∈ cs → 0 < times c cs.
Proof. rewrite list_elem_of_In. apply count_occ_In. Qed.

(** ** Counting the [render()] calls *)

Lemma render_count_app cs1 cs2 :
  render_count (cs1 ++ cs2) = render_count cs1 + render_count cs2.
Proof. unfold render_count. by rewrite filter_app, length_app. Qed.

Lemma render_count_layer_calls s l : render_count (layer_calls s l) = 1.
Proof.
  unfold layer_calls. by destruct (layersRenderers s !! getName l).
Qed.

Lemma render_count_loop_calls layers : ∀ i s,
  render_count (loop_calls i layers s) = length layers.
Proof.
  induction layers as [|l layers IH]; intros i s; simpl; [done|].
  by rewrite render_count_app, render_count_layer_calls, IH.
Qed.

Lemma render_count_clean_calls s ks : render_count (clean_calls s ks) = 0.
Proof.
  unfold render_count. apply length_zero_iff_nil, elem_of_nil_inv.
  intros c [Hc Hin]%list_elem_of_filter.
  apply elem_of_clean_calls in Hin as (? & ? & _ & _ & _ & [-> | ->]); done.
Qed.

(** A renderer the loop renders is the entry of a layer of the layout. *)
Lemma loop_calls_render_entry layers : ∀ i s r,
  LayerRenderer_render r ∈ loop_calls i layers s →
  ∃ l, l ∈ layers
     ∧ layersRenderers (reconcile_layers i layers s) !! getName l = Some r.
Proof.
  induction layers as [|l0 layers IH]; intros i s r Hc; simpl in *.
  { by apply elem_of_nil in Hc. }
  apply elem_of_app in Hc as [Hc|Hc].
  - exists l0. split; [by left|]. apply reconcile_layers_kept.
    rewrite reconcile_layer_map, lookup_insert_eq. f_equal.
    unfold layer_calls, renderer_for in *.
    destruct (layersRenderers s !! getName l0) as [r0|] eqn:E; simpl.
    + apply list_elem_of_singleton in Hc. by simplify_eq.
    + rewrite !elem_of_cons in Hc.
      destruct Hc as [Hc|[Hc|[Hc|Hc]]]; [done..| |by apply elem_of_nil in Hc].
      by simplify_eq.
  - apply IH in Hc as (l & Hl & Hr). exists l. split; [by right|done].
Qed.

(** ** Operations do not depend on the calls made before *)

Lemma set_calls_id s : set_calls (calls s) s = s.
Proof. by destruct s. Qed.

Lemma call_blind_compose f g :
  call_blind f → call_blind g → call_blind (λ s, g (f s)).
Proof.
  intros Hf Hg s. destruct (Hf s) as [new1 H1], (Hg (f s)) as [new2 H2].
  exists (new1 ++ new2). intros cs. by rewrite H1, H2, app_assoc.
Qed.

Lemma call_blind_new_calls f s cs :
  call_blind f →
  f (set_calls cs s) = set_calls (cs ++ new_calls s (f s)) (f s).
Proof.
  intros Hf. destruct (Hf s) as [new Hnew].
  assert (calls (f s) = calls s ++ new) as Hc.
  { rewrite <- (set_calls_id s) at 1. by rewrite Hnew. }
  by rewrite (new_calls_app _ _ _ Hc).
Qed.

Lemma call_blind_foldl {K} (f : InstancesRenderer → K → InstancesRenderer) ks :
  (∀ k, call_blind (λ s, f s k)) → call_blind (λ s, foldl f s ks).
Proof.
  intros Hf. induction ks as [|k ks IH]; simpl.
  - intros s. exists []. intros cs. by rewrite app_nil_r.
  - apply (call_blind_compose (λ s, f s k) (λ s, foldl f s ks)); [apply Hf|done].
Qed.

Lemma reconcile_layer_call_blind i l : call_blind (reconcile_layer i l).
Proof.
  intros s. exists (layer_calls s l). intros cs.
  unfold reconcile_layer, layer_calls. simpl.
  destruct (layersRenderers s !! getName l); simpl; unfold set_calls, record;
    simpl; [done|].
  by rewrite <- !app_assoc.
Qed.

Lemma reconcile_layers_call_blind layers : ∀ i, call_blind (reconcile_layers i layers).
Proof.
  induction layers as [|l layers IH]; intros i; simpl.
  - intros s. exists []. intros cs. by rewrite app_nil_r.
  - apply (call_blind_compose (reconcile_layer i l) (reconcile_layers (S i) layers));
      [apply reconcile_layer_call_blind|apply IH].
Qed.

Lemma updateZOrder_call_blind : call_blind _updatePixiObjectsZOrder.
Proof.
  intros s. exists []. intros cs. rewrite app_nil_r.
  unfold _updatePixiObjectsZOrder. simpl. by case_decide.
Qed.

Lemma clean_entry_call_blind k : call_blind (λ s, clean_entry s k).
Proof.
  intros s. unfold clean_entry, get_wasUsed. simpl.
  destruct (layersRenderers s !! k) as [r|].
  - destruct (heap s !! r) as [[l [|]]|]; simpl.
    + exists []. intros cs. by rewrite app_nil_r.
    + exists [Container_removeChild r; LayerRenderer_delete r]. intros cs.
      unfold set_calls, record. simpl. by rewrite <- !app_assoc.
    + exists [Container_removeChild r; LayerRenderer_delete r]. intros cs.
      unfold set_calls, record. simpl. by rewrite <- !app_assoc.
  - exists []. intros cs. by rewrite app_nil_r.
Qed.

Lemma clean_call_blind : call_blind _cleanUnusedLayerRenderers.
Proof.
  intros s.
  destruct (call_blind_foldl clean_entry (own_keys s) clean_entry_call_blind s)
    as [new Hnew].
  exists new. intros cs. unfold _cleanUnusedLayerRenderers.
  change (own_keys (set_calls cs s)) with (own_keys s). apply Hnew.
Qed.

Lemma reconcile_call_blind layout : call_blind (reconcile layout).
Proof.
  unfold reconcile.
  apply (call_blind_compose (λ s, _updatePixiObjectsZOrder (reconcile_layers 0 layout s))
           _cleanUnusedLayerRenderers); [|apply clean_call_blind].
  apply (call_blind_compose (reconcile_layers 0 layout) _updatePixiObjectsZOrder);
    [apply reconcile_layers_call_blind|apply updateZOrder_call_blind].
Qed.

(** ** The loop renders every layer *)

(** The loop renders the renderer of every layer it meets. *)
Lemma loop_calls_renders layers : ∀ i s l,
  l ∈ layers →
  ∃ r, layersRenderers (reconcile_layers i layers s) !! getName l = Some r
     ∧ LayerRenderer_render r ∈ loop_calls i layers s.
Proof.
  induction layers as [|l0 layers IH]; intros i s l Hl; simpl in *.
  { by apply elem_of_nil in Hl. }
  destruct (decide (l ∈ layers)) as [Hin|Hni].
  - destruct (IH (S i) (reconcile_layer i l0 s) l Hin) as (r & Hr & Hc).
    exists r. split; [done|]. apply elem_of_app. by right.
  - apply elem_of_cons in Hl as [->|?]; [|done].
    exists (renderer_for s (getName l0)). split.
    + apply reconcile_layers_kept. by rewrite reconcile_layer_map, lookup_insert_eq.
    + apply elem_of_app. left. unfold layer_calls, renderer_for.
      destruct (layersRenderers s !! getName l0); simpl; [by left|].
      do 2 right. by left.
Qed.

(** * The passes as they run *)

(** ** Reads of the dictionary that meet an inherited member *)



Lemma get_layersRenderers_inherited s n :
  get_layersRenderers s n = inherited_member
  ↔ layersRenderers s !! n = None ∧ inherited s n = true.
Proof.
  unfold get_layersRenderers.
  destruct (layersRenderers s !! n); [by split; [|intros []]|].
  destruct (inherited s n); by split; [|intros []].
Qed.



Lemma render_layer_Normal i l s :
  get_layersRenderers s (getName l) ≠ inherited_member →
  render_layer i l s = Normal (reconcile_layer i l s).
Proof.
  unfold render_layer. by destruct (get_layersRenderers s (getName l)).
Qed.

Lemma render_layer_Thrown i l s :
  get_layersRenderers s (getName l) = inherited_member →
  render_layer i l s = Thrown (write_to_inherited (getName l) s).
Proof. unfold render_layer. by intros ->. Qed.

(** The assignments to an inherited member leave [this] and the objects it
    reaches as they are. *)
Lemma write_to_inherited_frame n s :
  layersRenderers (write_to_inherited n s) = layersRenderers s
  ∧ pixiContainer (write_to_inherited n s) = pixiContainer s
  ∧ heap (write_to_inherited n s) = heap s
  ∧ zOrder (write_to_inherited n s) = zOrder s
  ∧ nextRef (write_to_inherited n s) = nextRef s
  ∧ calls (write_to_inherited n s) = calls s.
Proof. unfold write_to_inherited. by case_decide. Qed.









(** ** The loop of [render], with its exceptions *)

(** The loop either runs through, or stops at the first layer whose name
    reads as an inherited member, the layers before it being done. *)
Lemma render_layers_cases layers : ∀ i s,
  render_layers i layers s = Normal (reconcile_layers i layers s)
  ∨ ∃ k l,
      layers !! k = Some l
      ∧ get_layersRenderers (reconcile_layers i (take k layers) s) (getName l)
        = inherited_member
      ∧ render_layers i layers s
        = Thrown (write_to_inherited (getName l)
                    (reconcile_layers i (take k layers) s)).
Proof.
  induction layers as [|l0 layers IH]; intros i s; simpl; [by left|].
  destruct (decide (get_layersRenderers s (getName l0) = inherited_member))
    as [Hin|Hni].
  - right. exists 0, l0. simpl. split_and!; [done..|].
    by rewrite render_layer_Thrown.
  - rewrite render_layer_Normal by done.
    destruct (IH (S i) (reconcile_layer i l0 s)) as [->|(k & l & Hk & Hget & ->)].
    + by left.
    + right. by exists (S k), l.
Qed.


Lemma render_layers_Normal layers i s s' :
  render_layers i layers s = Normal s' → s' = reconcile_layers i layers s.
Proof.
  destruct (render_layers_cases layers i s) as [->|(k & l & _ & _ & ->)];
    congruence.
Qed.

(** ** [render()], with its exceptions *)


Lemma render_Normal layout s s' :
  render layout s = Normal s' → s' = reconcile layout s.
Proof.
  unfold render, reconcile.
  destruct (render_layers 0 layout s) as [s1|s1] eqn:E; [|done].
  apply render_layers_Normal in E as ->. congruence.
Qed.

Lemma render_returned_eq layout s :
  returned (render layout s) = true → render layout s = Normal (reconcile layout s).
Proof.
  destruct (render layout s) as [s'|s'] eqn:E; [|done].
  intros _. by rewrite (render_Normal _ _ _ E).
Qed.

Lemma render_Thrown layout s s' :
  render layout s = Thrown s' →
  ∃ k l,
    layout !! k = Some l
    ∧ get_layersRenderers (reconcile_layers 0 (take k layout) s) (getName l)
      = inherited_member
    ∧ s' = write_to_inherited (getName l) (reconcile_layers 0 (take k layout) s).
Proof.
  unfold render.
  destruct (render_layers_cases layout 0 s) as [->|(k & l & Hk & Hget & ->)];
    [done|].
  intros [= <-]. eauto.
Qed.



Lemma run_snoc layouts layout :
  run (layouts ++ [layout]) = state_of (render layout (run layouts)).
Proof. unfold run. by rewrite foldl_app. Qed.

Lemma run_from_snoc s layouts layout :
  run_from s (layouts ++ [layout]) = state_of (render layout (run_from s layouts)).
Proof. unfold run_from. by rewrite foldl_app. Qed.





Lemma state_of_Normal s : state_of (Normal s) = s.
Proof. done. Qed.

(** ** What holds in every state, whether the last pass returned or threw *)

Lemma constructor_sound : sound constructor.
Proof.
  split_and!.
  - apply constructor_linked.
  - by intros r ?%elem_of_nil.
  - split_and!.
    + by intros r l ?%elem_of_nil.
    + intros n r Hn. simpl in Hn. by rewrite lookup_empty in Hn.
    + by intros r ?%elem_of_nil.
  - done.
Qed.

Lemma loop_retired layers i s :
  retired s → retired (reconcile_layers i layers s).
Proof.
  intros Hret r Hr. rewrite reconcile_layers_calls in Hr.
  apply elem_of_app in Hr as [Hr|Hr].
  - destruct (Hret r Hr) as [Hlt Habs].
    pose proof (reconcile_layers_nextRef_le layers i s).
    split; [lia|].
    intros n [Hn|(_ & _ & Hle)]%reconcile_layers_origin; [by apply (Habs n)|lia].
  - apply loop_calls_elem in Hr as [[? ?]|[[? ?]|(? & ? & ? & _)]]; done.
Qed.

Lemma loop_accounted layers i s :
  accounted s → accounted (reconcile_layers i layers s).
Proof.
  intros (Hnew & Hentry & Hdel). unfold accounted. rewrite reconcile_layers_calls.
  split_and!.
  - intros r l [Hc|Hc]%elem_of_app.
    + destruct (Hnew r l Hc) as [[n Hn]|Hd].
      * left. exists n. by apply reconcile_layers_kept.
      * right. apply elem_of_app. by left.
    + left. apply loop_calls_new_entry in Hc as [_ Hr]. eauto.
  - intros n r Hn.
    destruct (layersRenderers s !! n) as [r0|] eqn:Hn0.
    + rewrite (reconcile_layers_kept _ _ _ _ _ Hn0) in Hn. simplify_eq.
      destruct (Hentry n r Hn0) as (l & Hl & Hc). exists l. split; [done|].
      apply elem_of_app. by left.
    + destruct (loop_calls_constructed _ _ _ _ _ Hn0 Hn) as (l & Hl & Hc).
      exists l. split; [done|]. apply elem_of_app. by right.
  - intros r [Hd|Hd]%elem_of_app.
    + destruct (Hdel r Hd) as [l Hl]. exists l. apply elem_of_app. by left.
    + apply loop_calls_elem in Hd as [[? ?]|[[? ?]|(? & ? & ? & _)]]; done.
Qed.

Lemma loop_final layers i s :
  linked s → retired s →
  teardown_is_final (calls s) →
  teardown_is_final (calls (reconcile_layers i layers s)).
Proof.
  intros Hs Hret Hfin. rewrite reconcile_layers_calls.
  apply teardown_is_final_app. split_and!; [done| |].
  - apply teardown_is_final_no_delete. intros r Hr.
    apply loop_calls_elem in Hr as [[? ?]|[[? ?]|(? & ? & ? & _)]]; done.
  - intros r Hr c Hc Hcr. destruct (Hret r Hr) as [Hlt Habs].
    destruct (loop_calls_renderers layers i s c Hs Hc) as (r' & Hr' & Hwhere).
    rewrite Hr' in Hcr. simplify_eq.
    destruct Hwhere as [[n Hn]|Hle]; [by apply (Habs n)|lia].
Qed.

Lemma reconcile_layers_sound layers i s :
  sound s → sound (reconcile_layers i layers s).
Proof.
  intros (Hs & Hret & Hacc & Hfin). split_and!.
  - by apply reconcile_layers_linked.
  - by apply loop_retired.
  - by apply loop_accounted.
  - by apply loop_final.
Qed.

(** The two steps after the loop, on the state the loop leaves. *)
Lemma sweep_spec s :
  linked s →
  linked (_cleanUnusedLayerRenderers (_updatePixiObjectsZOrder s))
  ∧ nextRef (_cleanUnusedLayerRenderers (_updatePixiObjectsZOrder s)) = nextRef s
  ∧ (∀ n, layersRenderers (_cleanUnusedLayerRenderers (_updatePixiObjectsZOrder s))
            !! n = swept s n)
  ∧ calls (_cleanUnusedLayerRenderers (_updatePixiObjectsZOrder s))
    = calls s ++ clean_calls s (own_keys s).
Proof.
  intros Hs. destruct (updateZOrder_frame s) as (Hm & Hh & Hn & Hc).
  destruct (clean_spec _ (updateZOrder_linked s Hs))
    as (Hs' & _ & Hnext & _ & Hmap & _ & Hcalls).
  split_and!; [done|by rewrite Hnext| |].
  - intros n. rewrite Hmap. unfold swept. rewrite Hm.
    destruct (layersRenderers s !! n); [|done].
    by rewrite updateZOrder_get_wasUsed.
  - rewrite Hcalls, Hc. f_equal. unfold own_keys. rewrite Hm.
    apply clean_calls_ext.
    + intros n _. by rewrite Hm.
    + intros n r _ _. by rewrite Hh.
Qed.

Lemma swept_Some s n r :
  swept s n = Some r ↔ layersRenderers s !! n = Some r ∧ get_wasUsed s r = true.
Proof.
  unfold swept. destruct (layersRenderers s !! n) as [r'|]; [|by split; [|intros []]].
  destruct (get_wasUsed s r') eqn:E; split.
  - by intros [= ->].
  - by intros [[= ->] _].
  - done.
  - intros [[= ->] ?]. congruence.
Qed.

Lemma clean_calls_delete s r :
  LayerRenderer_delete r ∈ clean_calls s (own_keys s)
  ↔ ∃ n, layersRenderers s !! n = Some r ∧ get_wasUsed s r = false.
Proof.
  rewrite elem_of_clean_calls. split.
  - intros (n & r' & _ & Hn & Hu & Hc).
    assert (r' = r) as -> by (destruct Hc; by simplify_eq). eauto.
  - intros (n & Hn & Hu). exists n, r. rewrite elem_of_own_keys, Hn. eauto 6.
Qed.

Lemma sweep_sound s :
  sound s → sound (_cleanUnusedLayerRenderers (_updatePixiObjectsZOrder s)).
Proof.
  intros (Hs & Hret & (Hnew & Hentry & Hdel) & Hfin).
  destruct (sweep_spec s Hs) as (Hs' & Hnext & Hmap & Hcalls).
  unfold sound, retired, accounted. rewrite Hcalls, Hnext.
  setoid_rewrite Hmap. setoid_rewrite swept_Some.
  split_and!; [done| | | | |].
  - intros r [Hr|Hr]%elem_of_app.
    + destruct (Hret r Hr) as [Hlt Habs]. split; [done|].
      intros n [Hn _]. by apply (Habs n).
    + apply clean_calls_delete in Hr as (n & Hn & Hu).
      split; [by apply (linked_fresh s Hs n)|]. intros n' [_ Hu']. congruence.
  - intros r l [Hc|Hc]%elem_of_app.
    + destruct (Hnew r l Hc) as [[n Hn]|Hd].
      * destruct (get_wasUsed s r) eqn:Hu.
        -- left. by exists n.
        -- right. apply elem_of_app. right. apply clean_calls_delete. eauto.
      * right. apply elem_of_app. by left.
    + apply elem_of_clean_calls in Hc as (? & ? & _ & _ & _ & [?|?]); done.
  - intros n r [Hn _]. destruct (Hentry n r Hn) as (l & Hl & Hc).
    exists l. split; [done|]. apply elem_of_app. by left.
  - intros r [Hd|Hd]%elem_of_app.
    + destruct (Hdel r Hd) as [l Hl]. exists l. apply elem_of_app. by left.
    + apply clean_calls_delete in Hd as (n & Hn & _).
      destruct (Hentry n r Hn) as (l & _ & Hc). exists l.
      apply elem_of_app. by left.
  - apply teardown_is_final_app.
    split_and!; [done|apply clean_calls_final; [done|apply own_keys_NoDup]|].
    intros r Hr c Hc Hcr.
    apply elem_of_clean_calls in Hc as (n & r' & _ & Hn & _ & Hc).
    assert (r' = r) as ->
      by (destruct Hc as [-> | ->]; simpl in Hcr; by simplify_eq).
    by apply (proj2 (Hret r Hr) n).
Qed.

Lemma write_to_inherited_sound n s : sound s → sound (write_to_inherited n s).
Proof.
  unfold write_to_inherited. case_decide; [|done].
  intros ([] & Hret & Hacc & Hfin). split_and!; [by constructor|done..].
Qed.

Lemma write_to_inherited_linked n s : linked s → linked (write_to_inherited n s).
Proof.
  unfold write_to_inherited. case_decide; [|done]. intros []. by constructor.
Qed.

Lemma reconcile_sound layout s : sound s → sound (reconcile layout s).
Proof. intros Hs. by apply sweep_sound, reconcile_layers_sound. Qed.

Lemma render_sound layout s : sound s → sound (state_of (render layout s)).
Proof.
  intros Hs. destruct (render layout s) as [s'|s'] eqn:E; simpl.
  - rewrite (render_Normal _ _ _ E). by apply reconcile_sound.
  - apply render_Thrown in E as (k & l & _ & _ & ->).
    by apply write_to_inherited_sound, reconcile_layers_sound.
Qed.

Lemma reset_sound objectName s :
  sound s → sound (resetInstanceRenderersFor objectName s).
Proof.
  intros (Hs & Hret & Hacc & Hfin). split_and!.
  - by apply reset_linked.
  - by apply reset_retired.
  - by apply reset_accounted.
  - by apply reset_final.
Qed.

Lemma session_sound ops : sound (session ops).
Proof.
  induction ops as [|op ops IH] using rev_ind; [apply constructor_sound|].
  rewrite session_snoc. destruct op as [layout|objectName]; simpl.
  - by apply render_sound.
  - by apply reset_sound.
Qed.

Lemma session_renders layouts : session (op_render <$> layouts) = run layouts.
Proof.
  induction layouts as [|layout layouts IH] using rev_ind; [done|].
  rewrite fmap_app. change (op_render <$> [layout]) with [op_render layout].
  by rewrite session_snoc, run_snoc, IH.
Qed.

Lemma run_sound layouts : sound (run layouts).
Proof. rewrite <- session_renders. apply session_sound. Qed.

Lemma run_linked layouts : linked (run layouts).
Proof. apply run_sound. Qed.

Lemma render_layers_linked layers i s :
  linked s → linked (state_of (render_layers i layers s)).
Proof.
  intros Hs.
  destruct (render_layers_cases layers i s) as [->|(k & l & _ & _ & ->)]; simpl.
  - by apply reconcile_layers_linked.
  - by apply write_to_inherited_linked, reconcile_layers_linked.
Qed.

(** ** What a pass keeps *)

Lemma render_linked layout s : linked s → linked (state_of (render layout s)).
Proof.
  intros Hs. destruct (render layout s) as [s'|s'] eqn:E; simpl.
  - rewrite (render_Normal _ _ _ E). by apply reconcile_linked.
  - apply render_Thrown in E as (k & l & _ & _ & ->).
    by apply write_to_inherited_linked, reconcile_layers_linked.
Qed.

Lemma run_from_linked s later : linked s → linked (run_from s later).
Proof.
  intros Hs. induction later as [|layout later IH] using rev_ind; [done|].
  rewrite run_from_snoc. by apply render_linked.
Qed.

(** The calls of a call that threw are those of the loop up to the layer
    that made it throw. *)
Lemma render_Thrown_calls layout s s' :
  render layout s = Thrown s' →
  ∃ k l, layout !! k = Some l
       ∧ get_layersRenderers (reconcile_layers 0 (take k layout) s) (getName l)
         = inherited_member
       ∧ s' = write_to_inherited (getName l) (reconcile_layers 0 (take k layout) s)
       ∧ layersRenderers s' = layersRenderers (reconcile_layers 0 (take k layout) s)
       ∧ new_calls s s' = loop_calls 0 (take k layout) s.
Proof.
  intros (k & l & Hk & Hget & ->)%render_Thrown. exists k, l.
  destruct (write_to_inherited_frame (getName l)
              (reconcile_layers 0 (take k layout) s)) as (Hm & _ & _ & _ & _ & Hc).
  split_and!; [done..|].
  apply new_calls_app. by rewrite Hc, reconcile_layers_calls.
Qed.

Lemma render_calls_prefix layout s :
  linked s → calls s `prefix_of` calls (state_of (render layout s)).
Proof.
  intros Hs. destruct (render layout s) as [s'|s'] eqn:E; simpl.
  - rewrite (render_Normal _ _ _ E). by apply reconcile_calls_prefix.
  - apply render_Thrown in E as (k & l & _ & _ & ->).
    destruct (write_to_inherited_frame (getName l)
                (reconcile_layers 0 (take k layout) s)) as (_ & _ & _ & _ & _ & Hc).
    rewrite Hc, reconcile_layers_calls. by eexists.
Qed.

Lemma run_from_calls_prefix s later :
  linked s → calls s `prefix_of` calls (run_from s later).
Proof.
  intros Hs. induction later as [|layout later IH] using rev_ind; [done|].
  rewrite run_from_snoc. etrans; [exact IH|].
  by apply render_calls_prefix, run_from_linked.
Qed.

Lemma reconcile_keeps layout s n r :
  linked s → layersRenderers s !! n = Some r → n ∈ layerNames layout →
  layersRenderers (reconcile layout s) !! n = Some r
  ∧ (LayerRenderer_delete r ∉ new_calls s (reconcile layout s))
  ∧ (Container_removeChild r ∉ new_calls s (reconcile layout s)).
Proof.
  intros Hs Hn Hin.
  pose proof (reconcile_layers_linked layout 0 s Hs) as Hs1.
  pose proof (reconcile_layers_kept layout 0 s n r Hn) as Hn1.
  pose proof (reconcile_layers_used layout 0 s n r Hs Hin Hn1) as Hu.
  destruct (sweep_spec _ Hs1) as (_ & _ & Hmap & Hcalls).
  fold (reconcile layout s) in Hmap, Hcalls.
  rewrite reconcile_layers_calls, <- app_assoc in Hcalls.
  rewrite (new_calls_app _ _ _ Hcalls).
  split_and!.
  - rewrite Hmap. by apply swept_Some.
  - intros [Hc|Hc]%elem_of_app.
    + apply loop_calls_elem in Hc as [[? ?]|[[? ?]|(? & ? & ? & _)]]; done.
    + apply clean_calls_delete in Hc as (n' & Hn' & Hu'). congruence.
  - intros [Hc|Hc]%elem_of_app.
    + apply loop_calls_elem in Hc as [[? ?]|[[? ?]|(? & ? & ? & _)]]; done.
    + apply elem_of_clean_calls in Hc as (n' & r' & _ & Hn' & Hu' & [Hc|Hc]);
        simplify_eq. congruence.
Qed.

(** An entry whose name the layout reports outlasts the call, whether the
    call returns or throws. *)
Lemma render_keeps layout s n r :
  linked s → layersRenderers s !! n = Some r → n ∈ layerNames layout →
  layersRenderers (state_of (render layout s)) !! n = Some r
  ∧ (LayerRenderer_delete r ∉ new_calls s (state_of (render layout s)))
  ∧ (Container_removeChild r ∉ new_calls s (state_of (render layout s))).
Proof.
  intros Hs Hn Hin. destruct (render layout s) as [s'|s'] eqn:E; simpl.
  - rewrite (render_Normal _ _ _ E). by apply reconcile_keeps.
  - apply render_Thrown_calls in E as (k & l & _ & _ & _ & -> & ->).
    split_and!.
    + by apply reconcile_layers_kept.
    + intros Hc. apply loop_calls_elem in Hc as [[? ?]|[[? ?]|(? & ? & ? & _)]]; done.
    + intros Hc. apply loop_calls_elem in Hc as [[? ?]|[[? ?]|(? & ? & ? & _)]]; done.
Qed.

(** ** What a call that throws leaves, and when a call throws *)








Lemma reconcile_layers_children_prefix layers : ∀ i s,
  pixiContainer s `prefix_of` pixiContainer (reconcile_layers i layers s).
Proof.
  induction layers as [|l layers IH]; intros i s; simpl; [done|].
  etrans; [|apply IH]. rewrite reconcile_layer_children. by eexists.
Qed.

(** * The claims *)

(** C1 (mapping cardinality), not met by the code. The first [render()]
    call over the layout whose one layer is named [constructor]: the names
    are pairwise distinct, the read [this.layersRenderers["constructor"]]
    yields the member inherited from [Object.prototype], no [LayerRenderer]
    is constructed and the call throws. After the call the dictionary has no
    entry, none for the reported name, while the layout reports one layer. *)
Theorem C1_layer_named_constructor :
  NoDup (layerNames [mkLayer 0 "constructor"])
  ∧ get_layersRenderers (run []) "constructor" = inherited_member
  ∧ render [mkLayer 0 "constructor"] (run []) = Thrown constructor
  ∧ size (layersRenderers (run [[mkLayer 0 "constructor"]])) = 0
  ∧ getLayersCount [mkLayer 0 "constructor"] = 1
  ∧ layersRenderers (run [[mkLayer 0 "constructor"]]) !! "constructor" = None.
Proof.
  split_and!; [apply NoDup_singleton|vm_compute; reflexivity..].
Qed.

(** C2 (z-order fidelity), not met by the code. The layers [Main],
    [Background] are rendered, then swapped and followed by a layer named
    [constructor]. The second call sets the [zOrder] of the two drawables
    and throws on the third layer, before the sort: the drawable of
    [Background] (position [0], [zOrder] [0]) stays behind the drawable of
    [Main] (position [1], [zOrder] [1]), and the children are not in
    ascending order of [zOrder]. *)
Theorem C2_throw_before_sort :
  NoDup (layerNames [mkLayer 2 "Background"; mkLayer 3 "Main";
                     mkLayer 4 "constructor"])
  ∧ returned (render [mkLayer 2 "Background"; mkLayer 3 "Main";
                      mkLayer 4 "constructor"]
                (run [[mkLayer 0 "Main"; mkLayer 1 "Background"]])) = false
  ∧ layersRenderers
      (run [[mkLayer 0 "Main"; mkLayer 1 "Background"];
            [mkLayer 2 "Background"; mkLayer 3 "Main"; mkLayer 4 "constructor"]])
    !! "Background" = Some 1
  ∧ layersRenderers
      (run [[mkLayer 0 "Main"; mkLayer 1 "Background"];
            [mkLayer 2 "Background"; mkLayer 3 "Main"; mkLayer 4 "constructor"]])
    !! "Main" = Some 0
  ∧ pixiContainer
      (run [[mkLayer 0 "Main"; mkLayer 1 "Background"];
            [mkLayer 2 "Background"; mkLayer 3 "Main"; mkLayer 4 "constructor"]])
    = [0; 1]
  ∧ zOrder
      (run [[mkLayer 0 "Main"; mkLayer 1 "Background"];
            [mkLayer 2 "Background"; mkLayer 3 "Main"; mkLayer 4 "constructor"]])
    !! 1 = Some 0%Z
  ∧ zOrder
      (run [[mkLayer 0 "Main"; mkLayer 1 "Background"];
            [mkLayer 2 "Background"; mkLayer 3 "Main"; mkLayer 4 "constructor"]])
    !! 0 = Some 1%Z
  ∧ ¬ precedes
        (pixiContainer
           (run [[mkLayer 0 "Main"; mkLayer 1 "Background"];
                 [mkLayer 2 "Background"; mkLayer 3 "Main";
                  mkLayer 4 "constructor"]])) 1 0
  ∧ layersRenderers
      (run [[mkLayer 0 "Main"; mkLayer 1 "Background"];
            [mkLayer 2 "Background"; mkLayer 3 "Main"; mkLayer 4 "constructor"]])
    !! "constructor" = None.
Proof.
  assert (pixiContainer
            (run [[mkLayer 0 "Main"; mkLayer 1 "Background"];
                  [mkLayer 2 "Background"; mkLayer 3 "Main";
                   mkLayer 4 "constructor"]]) = [0; 1]) as Hch
    by (vm_compute; reflexivity).
  split; [|split_and!; [vm_compute; reflexivity..| |vm_compute; reflexivity]].
  - change (NoDup ["Background"; "Main"; "constructor"]).
    apply NoDup_cons. split.
    { intros [Heq|Hin]%elem_of_cons; [done|].
      by apply list_elem_of_singleton in Hin. }
    apply NoDup_cons. split; [|apply NoDup_singleton].
    by intros [=]%list_elem_of_singleton.
  - rewrite Hch. intros (p & q & Hp & Hq & Hlt).
    destruct p as [|[|p]]; simpl in Hp; [done| |done].
    destruct q as [|[|q]]; simpl in Hq; [lia|done|done].
Qed.

(** C3 (garbage collection), not met by the code. The first call renders a
    layer [Main] and a layer named [constructor]: the renderer of [Main] is
    constructed and marked, then the call throws and the cleanup is skipped.
    The second call, over a layout without layers, returns: the name [Main] was
    reported in the first pass and is not in the second, yet the renderer of
    [Main] was not torn down, its drawable is a child of the root container,
    and its entry is in the dictionary. *)
Theorem C3_mark_left_by_a_throw :
  "Main" ∈ layerNames [mkLayer 0 "Main"; mkLayer 1 "constructor"]
  ∧ ("Main" ∉ layerNames [])
  ∧ returned (render [mkLayer 0 "Main"; mkLayer 1 "constructor"] (run [])) = false
  ∧ layersRenderers (run [[mkLayer 0 "Main"; mkLayer 1 "constructor"]]) !! "Main"
    = Some 0
  ∧ returned (render [] (run [[mkLayer 0 "Main"; mkLayer 1 "constructor"]])) = true
  ∧ layersRenderers (run [[mkLayer 0 "Main"; mkLayer 1 "constructor"]; []]) !! "Main"
    = Some 0
  ∧ pixiContainer (run [[mkLayer 0 "Main"; mkLayer 1 "constructor"]; []]) = [0]
  ∧ (LayerRenderer_delete 0
       ∉ calls (run [[mkLayer 0 "Main"; mkLayer 1 "constructor"]; []])).
Proof.
  assert (calls (run [[mkLayer 0 "Main"; mkLayer 1 "constructor"]; []])
          = [new_LayerRenderer 0 (mkLayer 0 "Main"); Container_addChild 0;
             LayerRenderer_render 0]) as Hcalls by (vm_compute; reflexivity).
  split_and!; try (vm_compute; reflexivity).
  - simpl. by left.
  - simpl. apply not_elem_of_nil.
  - rewrite Hcalls, !not_elem_of_cons. split_and!; [done..|apply not_elem_of_nil].
Qed.

(** C4 (layer-object rebinding), not met by the code. Between two passes
    the layer object at position [1], named [Main], is replaced by another
    object of the same name, and the layer at position [0] by one named
    [constructor]. The second call throws at position [0], before it reaches
    [Main]: the entry of [Main] is kept, but its renderer stays bound to the
    layer object of the first pass. *)
Theorem C4_throw_before_rebinding :
  mkLayer 1 "Main" ∈ [mkLayer 0 "Base"; mkLayer 1 "Main"]
  ∧ mkLayer 7 "Main" ∈ [mkLayer 2 "constructor"; mkLayer 7 "Main"]
  ∧ [mkLayer 0 "Base"; mkLayer 1 "Main"] !! 1 = Some (mkLayer 1 "Main")
  ∧ [mkLayer 2 "constructor"; mkLayer 7 "Main"] !! 1 = Some (mkLayer 7 "Main")
  ∧ returned (render [mkLayer 2 "constructor"; mkLayer 7 "Main"]
                (run [[mkLayer 0 "Base"; mkLayer 1 "Main"]])) = false
  ∧ layersRenderers (run [[mkLayer 0 "Base"; mkLayer 1 "Main"]]) !! "Main" = Some 1
  ∧ layersRenderers
      (run [[mkLayer 0 "Base"; mkLayer 1 "Main"];
            [mkLayer 2 "constructor"; mkLayer 7 "Main"]]) !! "Main" = Some 1
  ∧ layer <$> heap (run [[mkLayer 0 "Base"; mkLayer 1 "Main"];
                         [mkLayer 2 "constructor"; mkLayer 7 "Main"]]) !! 1
    = Some (mkLayer 1 "Main")
  ∧ layer <$> heap (run [[mkLayer 0 "Base"; mkLayer 1 "Main"];
                         [mkLayer 2 "constructor"; mkLayer 7 "Main"]]) !! 1
    ≠ Some (mkLayer 7 "Main").
Proof.
  assert (layer <$> heap (run [[mkLayer 0 "Base"; mkLayer 1 "Main"];
                               [mkLayer 2 "constructor"; mkLayer 7 "Main"]]) !! 1
          = Some (mkLayer 1 "Main")) as Hl by (vm_compute; reflexivity).
  split_and!; try (vm_compute; reflexivity).
  - right. by left.
  - right. by left.
  - by rewrite Hl.
Qed.

(** C6 (liveness flag), not met by the code. The first [render()] call over
    the layers [Main] and [constructor] marks the renderer of [Main] and
    throws on the second layer; the cleanup does not run, and at the end of
    the call the entry of [Main] is marked. *)
Theorem C6_mark_after_a_throw :
  returned (render [mkLayer 0 "Main"; mkLayer 1 "constructor"] (run [])) = false
  ∧ layersRenderers (run [[mkLayer 0 "Main"; mkLayer 1 "constructor"]]) !! "Main"
    = Some 0
  ∧ wasUsed <$> heap (run [[mkLayer 0 "Main"; mkLayer 1 "constructor"]]) !! 0
    = Some true
  ∧ ¬ idle (run [[mkLayer 0 "Main"; mkLayer 1 "constructor"]]).
Proof.
  split_and!; try (vm_compute; reflexivity).
  intros Hidle.
  assert (layersRenderers (run [[mkLayer 0 "Main"; mkLayer 1 "constructor"]])
            !! "Main" = Some 0) as Hn by (vm_compute; reflexivity).
  apply Hidle in Hn. vm_compute in Hn. done.
Qed.

(** C7 (teardown). One call of [delete()], in whatever state the marks
    are: the calls it makes are one [LayerRenderer_delete] per entry of the
    dictionary followed by one [Container_destroy]; the renderer of every
    entry is torn down exactly once, none twice, the root container is
    destroyed once, and the marks have no influence on these calls. *)
Theorem C7_teardown (s : InstancesRenderer) :
  linked s →
  new_calls s (InstancesRenderer_delete s)
  = (LayerRenderer_delete <$> entry_renderers s) ++ [Container_destroy]
  ∧ (∀ n r, layersRenderers s !! n = Some r →
       times (LayerRenderer_delete r) (new_calls s (InstancesRenderer_delete s)) = 1)
  ∧ (∀ r, times (LayerRenderer_delete r)
            (new_calls s (InstancesRenderer_delete s)) ≤ 1)
  ∧ times Container_destroy (new_calls s (InstancesRenderer_delete s)) = 1
  ∧ (∀ r b,
       new_calls (set_wasUsed r b s) (InstancesRenderer_delete (set_wasUsed r b s))
       = new_calls s (InstancesRenderer_delete s)).
Proof.
  intros Hs. rewrite !delete_new_calls.
  assert (NoDup (LayerRenderer_delete <$> entry_renderers s)) as Hnd.
  { apply (NoDup_fmap_2 LayerRenderer_delete). by apply entry_renderers_NoDup. }
  split_and!; [done| | | |].
  - intros n r Hn. rewrite <- delete_new_calls. by apply (delete_calls_once s n).
  - intros r. rewrite times_app.
    rewrite (times_0 _ [Container_destroy])
      by by intros [=]%list_elem_of_singleton.
    pose proof (times_NoDup_le (LayerRenderer_delete r) _ Hnd). lia.
  - rewrite times_app, times_0; [done|].
    by intros (r & [=] & _)%list_elem_of_fmap.
  - intros r b. by rewrite delete_new_calls.
Qed.

Lemma C7_teardown_witness :
  linked (state_of (render_layers 0 [mkLayer 0 "Background"; mkLayer 1 "Main"]
                      constructor))
  ∧ times Container_destroy
      (new_calls
         (state_of (render_layers 0 [mkLayer 0 "Background"; mkLayer 1 "Main"]
                      constructor))
         (InstancesRenderer_delete
            (state_of (render_layers 0 [mkLayer 0 "Background"; mkLayer 1 "Main"]
                         constructor)))) = 1.
Proof.
  pose proof (render_layers_linked [mkLayer 0 "Background"; mkLayer 1 "Main"]
                0 constructor constructor_linked) as Hs.
  split; [exact Hs|].
  exact (proj1 (proj2 (proj2 (proj2 (C7_teardown _ Hs))))).
Defined.

(** C8 (reset is a pure forward). [resetInstanceRenderersFor(objectName)],
    for any [objectName], leaves the dictionary, the renderers' fields
    (mark and layer), the children of the root container and their [zOrder]
    as they are; the calls it makes are one
    [resetInstanceRenderersFor(objectName)] per entry of the dictionary, the
    renderer of every entry being called exactly once. The operation yields
    nothing but the new state. *)
Theorem C8_reset_frame (s : InstancesRenderer) (objectName : string) :
  linked s →
  layersRenderers (resetInstanceRenderersFor objectName s) = layersRenderers s
  ∧ heap (resetInstanceRenderersFor objectName s) = heap s
  ∧ pixiContainer (resetInstanceRenderersFor objectName s) = pixiContainer s
  ∧ zOrder (resetInstanceRenderersFor objectName s) = zOrder s
  ∧ new_calls s (resetInstanceRenderersFor objectName s)
    = (λ r, LayerRenderer_resetInstanceRenderersFor r objectName)
        <$> entry_renderers s
  ∧ (∀ n r, layersRenderers s !! n = Some r →
       times (LayerRenderer_resetInstanceRenderersFor r objectName)
         (new_calls s (resetInstanceRenderersFor objectName s)) = 1)
  ∧ (∀ c, c ∈ new_calls s (resetInstanceRenderersFor objectName s) →
       ∃ n r, layersRenderers s !! n = Some r
            ∧ c = LayerRenderer_resetInstanceRenderersFor r objectName).
Proof.
  intros Hs.
  assert (new_calls s (resetInstanceRenderersFor objectName s)
          = (λ r, LayerRenderer_resetInstanceRenderersFor r objectName)
              <$> entry_renderers s) as Hc.
  { apply new_calls_app. by rewrite reset_eq. }
  rewrite Hc, reset_eq. simpl. split_and!; try done.
  - intros n r Hn. apply times_NoDup_1.
    + apply (NoDup_fmap_2 (λ r, LayerRenderer_resetInstanceRenderersFor r objectName)).
      by apply entry_renderers_NoDup.
    + apply (list_elem_of_fmap_2 (λ r, LayerRenderer_resetInstanceRenderersFor r objectName)).
      apply elem_of_entry_renderers. eauto.
  - intros c (r & -> & [n Hn]%elem_of_entry_renderers)%list_elem_of_fmap. eauto.
Qed.

Lemma C8_reset_frame_witness :
  linked (run [[mkLayer 0 "Background"; mkLayer 1 "Main"]])
  ∧ heap (resetInstanceRenderersFor "Tree"
            (run [[mkLayer 0 "Background"; mkLayer 1 "Main"]]))
    = heap (run [[mkLayer 0 "Background"; mkLayer 1 "Main"]]).
Proof.
  pose proof (run_linked [[mkLayer 0 "Background"; mkLayer 1 "Main"]]) as Hs.
  split; [exact Hs|].
  exact (proj1 (proj2 (C8_reset_frame _ "Tree" Hs))).
Defined.

(** C10 (teardown keeps the entries). [delete()] leaves the dictionary as it
    is and makes no [removeChild] call: when the root container is
    destroyed its children are those of before [delete()]. A second
    [delete()] makes the calls of the first again, so that the renderer of
    every entry has then been torn down twice. *)
Theorem C10_teardown_keeps_entries (s : InstancesRenderer) :
  linked s →
  layersRenderers (InstancesRenderer_delete s) = layersRenderers s
  ∧ pixiContainer (delete_layers s) = pixiContainer s
  ∧ (∀ r, Container_removeChild r ∉ new_calls s (InstancesRenderer_delete s))
  ∧ new_calls (InstancesRenderer_delete s)
      (InstancesRenderer_delete (InstancesRenderer_delete s))
    = new_calls s (InstancesRenderer_delete s)
  ∧ (∀ n r, layersRenderers s !! n = Some r →
       layersRenderers (InstancesRenderer_delete s) !! n = Some r
       ∧ times (LayerRenderer_delete r)
           (new_calls (InstancesRenderer_delete s)
              (InstancesRenderer_delete (InstancesRenderer_delete s))) = 1
       ∧ times (LayerRenderer_delete r)
           (new_calls s
              (InstancesRenderer_delete (InstancesRenderer_delete s))) = 2).
Proof.
  intros Hs.
  assert (layersRenderers (InstancesRenderer_delete s) = layersRenderers s) as Hm.
  { unfold InstancesRenderer_delete. by rewrite delete_layers_eq. }
  assert (entry_renderers (InstancesRenderer_delete s) = entry_renderers s) as He.
  { unfold entry_renderers. by rewrite Hm. }
  assert (linked (InstancesRenderer_delete s)) as Hs'.
  { unfold InstancesRenderer_delete. rewrite delete_layers_eq.
    by destruct Hs. }
  pose proof (delete_new_calls s) as Hc.
  pose proof (delete_new_calls (InstancesRenderer_delete s)) as Hc'.
  pose proof (delete_calls_once s) as H1.
  pose proof (delete_calls_once (InstancesRenderer_delete s)) as H1'.
  split_and!.
  - done.
  - by rewrite delete_layers_eq.
  - intros r. rewrite Hc. intros [Hin|Hin]%elem_of_app.
    + by apply list_elem_of_fmap in Hin as (? & [=] & _).
    + by apply list_elem_of_singleton in Hin.
  - by rewrite Hc', Hc, He.
  - intros n r Hn. split_and!.
    + by rewrite Hm.
    + apply (H1' n); [done|]. by rewrite Hm.
    + rewrite (new_calls_app s _
                 (new_calls s (InstancesRenderer_delete s)
                    ++ new_calls (InstancesRenderer_delete s)
                         (InstancesRenderer_delete (InstancesRenderer_delete s)))).
      * rewrite times_app, (H1 n r Hs Hn), (H1' n r Hs'); [done|]. by rewrite Hm.
      * rewrite Hc', Hc, He. unfold InstancesRenderer_delete.
        rewrite !delete_layers_eq. simpl. by rewrite <- !app_assoc.
Qed.

Lemma C10_teardown_keeps_entries_witness :
  linked (run [[mkLayer 0 "Background"; mkLayer 1 "Main"]])
  ∧ layersRenderers
      (InstancesRenderer_delete (run [[mkLayer 0 "Background"; mkLayer 1 "Main"]]))
    = layersRenderers (run [[mkLayer 0 "Background"; mkLayer 1 "Main"]]).
Proof.
  pose proof (run_linked [[mkLayer 0 "Background"; mkLayer 1 "Main"]]) as Hs.
  split; [exact Hs|].
  exact (proj1 (C10_teardown_keeps_entries _ Hs)).
Defined.

Example double_teardown :
  times (LayerRenderer_delete 0)
    (new_calls (run [[mkLayer 0 "Background"; mkLayer 1 "Main"]])
       (InstancesRenderer_delete
          (InstancesRenderer_delete
             (run [[mkLayer 0 "Background"; mkLayer 1 "Main"]])))) = 2.
Proof. vm_compute. reflexivity. Qed.

(** C5 (measurer fallback), not met by the code. Right after the
    constructor the dictionary has no entry. For an instance on a layer
    named [constructor], without custom size, none of the four queries falls
    back: the read yields the inherited member, which is truthy, and the
    call of its missing method is a [TypeError]. *)
Theorem C5_instance_on_layer_named_constructor :
  layersRenderers constructor !! "constructor" = None
  ∧ instanceMeasurer.getInstanceLeft constructor
      (mkInstance "constructor" 10%Z 20%Z false 0%Z 0%Z) = TypeError
  ∧ instanceMeasurer.getInstanceTop constructor
      (mkInstance "constructor" 10%Z 20%Z false 0%Z 0%Z) = TypeError
  ∧ instanceMeasurer.getInstanceWidth 0%Z constructor
      (mkInstance "constructor" 10%Z 20%Z false 0%Z 0%Z) = TypeError
  ∧ instanceMeasurer.getInstanceHeight 0%Z constructor
      (mkInstance "constructor" 10%Z 20%Z false 0%Z 0%Z) = TypeError.
Proof. split_and!; vm_compute; reflexivity. Qed.

(** C9 (rect), not met by the code. For an instance with a custom size on a
    layer named [constructor], [getInstanceWidth] and [getInstanceHeight]
    return the custom size, but [getInstanceRect] returns no record: its
    call of [getInstanceLeft] throws. *)
Theorem C9_rect_of_instance_on_layer_named_constructor :
  instanceMeasurer.getInstanceRect 0%Z constructor
    (mkInstance "constructor" 10%Z 20%Z true 5%Z 6%Z) = TypeError
  ∧ instanceMeasurer.getInstanceLeft constructor
      (mkInstance "constructor" 10%Z 20%Z true 5%Z 6%Z) = TypeError
  ∧ instanceMeasurer.getInstanceWidth 0%Z constructor
      (mkInstance "constructor" 10%Z 20%Z true 5%Z 6%Z) = Returns 5%Z
  ∧ instanceMeasurer.getInstanceHeight 0%Z constructor
      (mkInstance "constructor" 10%Z 20%Z true 5%Z 6%Z) = Returns 6%Z.
Proof. split_and!; vm_compute; reflexivity. Qed.

(** * Further properties of the code *)

(** ** Every state of a session *)

(** X1 (no dangling drawable). In every state reached by [render()] calls,
    whatever the layouts were and whether the calls returned or threw, the
    children of the root container are the
    drawables of the renderers of the dictionary, each once: no child without
    an entry, no entry without its child, as many children as entries, and
    every entry refers to a renderer that exists. *)
Theorem X1_children_are_entries (layouts : list gdLayout) :
  NoDup (pixiContainer (run layouts))
  ∧ (∀ r, r ∈ pixiContainer (run layouts)
          ↔ ∃ n, layersRenderers (run layouts) !! n = Some r)
  ∧ length (pixiContainer (run layouts)) = size (layersRenderers (run layouts))
  ∧ (∀ n1 n2 r, layersRenderers (run layouts) !! n1 = Some r →
       layersRenderers (run layouts) !! n2 = Some r → n1 = n2)
  ∧ (∀ n r, layersRenderers (run layouts) !! n = Some r →
       is_Some (heap (run layouts) !! r)).
Proof.
  pose proof (run_linked layouts) as Hs.
  split_and!.
  - apply (linked_NoDup _ Hs).
  - apply (linked_children _ Hs).
  - by apply linked_children_length.
  - apply (linked_inj _ Hs).
  - apply (linked_heap _ Hs).
Qed.

(** X10 (teardown is final). In the calls of any session of [render()] and
    [resetInstanceRenderersFor()] calls, whether they returned or threw, once a renderer has been torn down
    no later call concerns it: it is not rendered, not reset, its drawable
    is not attached or detached, and it is not torn down a second time; it
    is no entry of the dictionary and its drawable no child of the root
    container. *)
Theorem X10_teardown_is_final (ops : list operation) :
  (∀ pre post r c,
     calls (session ops) = pre ++ LayerRenderer_delete r :: post →
     c ∈ post → renderer_of c ≠ Some r)
  ∧ (∀ r, times (LayerRenderer_delete r) (calls (session ops)) ≤ 1)
  ∧ (∀ r, LayerRenderer_delete r ∈ calls (session ops) →
       (∀ n, layersRenderers (session ops) !! n ≠ Some r)
       ∧ (r ∉ pixiContainer (session ops))).
Proof.
  destruct (session_sound ops) as (Hs & Hret & _ & Hfin).
  split_and!.
  - intros pre post r c Heq. by apply (teardown_is_final_split _ _ _ _ _ Hfin Heq).
  - intros r. by apply teardown_is_final_times.
  - intros r Hr. destruct (Hret r Hr) as [_ Habs]. split; [done|].
    rewrite (linked_children _ Hs). intros [n Hn]. by apply (Habs n).
Qed.

Lemma X10_teardown_is_final_witness :
  LayerRenderer_delete 0
    ∈ calls (session [op_render [mkLayer 0 "Background"; mkLayer 1 "Main"];
                      op_render [mkLayer 1 "Main"];
                      op_resetInstanceRenderersFor "Tree";
                      op_render [mkLayer 2 "Background"; mkLayer 1 "Main"]])
  ∧ (0 ∉ pixiContainer
           (session [op_render [mkLayer 0 "Background"; mkLayer 1 "Main"];
                     op_render [mkLayer 1 "Main"];
                     op_resetInstanceRenderersFor "Tree";
                     op_render [mkLayer 2 "Background"; mkLayer 1 "Main"]])).
Proof.
  assert (LayerRenderer_delete 0
            ∈ calls (session [op_render [mkLayer 0 "Background"; mkLayer 1 "Main"];
                              op_render [mkLayer 1 "Main"];
                              op_resetInstanceRenderersFor "Tree";
                              op_render [mkLayer 2 "Background"; mkLayer 1 "Main"]]))
    as H.
  { vm_compute. do 8 right. left. }
  split; [exact H|].
  exact (proj2 (proj2 (proj2 (X10_teardown_is_final _)) 0 H)).
Defined.

(** X11 (no renderer is lost). In every state of a session, the entries of
    the dictionary are exactly the renderers that were constructed and not
    torn down since, each under the name of the layer it was constructed
    for. *)
Theorem X11_entries_accounted (ops : list operation) :
  (∀ r, (∃ n, layersRenderers (session ops) !! n = Some r)
        ↔ (∃ l, new_LayerRenderer r l ∈ calls (session ops))
          ∧ (LayerRenderer_delete r ∉ calls (session ops)))
  ∧ (∀ n r, layersRenderers (session ops) !! n = Some r →
       ∃ l, getName l = n ∧ new_LayerRenderer r l ∈ calls (session ops)).
Proof.
  destruct (session_sound ops) as (_ & Hret & (Hnew & Hentry & _) & _).
  split; [|done]. intros r. split.
  - intros [n Hn]. split.
    + destruct (Hentry n r Hn) as (l & _ & Hc). eauto.
    + intros Hd. by apply (proj2 (Hret r Hd) n).
  - intros [[l Hc] Hnd]. by destruct (Hnew r l Hc).
Qed.

(** X12 (every renderer is torn down once in the end). When a session is
    closed by [delete()], every renderer constructed during the session has
    been torn down exactly once, be it by a pass or by [delete()], and
    nothing else was torn down. *)
Theorem X12_session_teardown (ops : list operation) (r : ref) :
  ((∃ l, new_LayerRenderer r l ∈ calls (session ops)) →
     times (LayerRenderer_delete r)
       (calls (InstancesRenderer_delete (session ops))) = 1)
  ∧ (LayerRenderer_delete r ∈ calls (InstancesRenderer_delete (session ops)) →
       ∃ l, new_LayerRenderer r l ∈ calls (session ops)).
Proof.
  destruct (session_sound ops) as (Hs & Hret & (Hnew & Hentry & Hdel) & Hfin).
  assert (calls (InstancesRenderer_delete (session ops))
          = calls (session ops)
              ++ new_calls (session ops) (InstancesRenderer_delete (session ops)))
    as Hcalls.
  { rewrite delete_new_calls. unfold InstancesRenderer_delete.
    rewrite delete_layers_eq. simpl. by rewrite <- app_assoc. }
  rewrite Hcalls. split.
  - intros [l Hc]. rewrite times_app.
    destruct (Hnew r l Hc) as [[n Hn]|Hd].
    + rewrite (delete_calls_once _ n r Hs Hn), times_0; [done|].
      intros Hd. by apply (proj2 (Hret r Hd) n).
    + pose proof (teardown_is_final_times _ r Hfin).
      pose proof (times_pos _ _ Hd).
      rewrite (times_0 _ (new_calls _ _)); [lia|].
      rewrite delete_new_calls. intros Hin.
      apply elem_of_app in Hin as [Hin|Hin].
      * apply list_elem_of_fmap in Hin as (r' & Heq & Hin).
        apply elem_of_entry_renderers in Hin as [n Hn]. simplify_eq.
        by apply (proj2 (Hret r' Hd) n).
      * by apply list_elem_of_singleton in Hin.
  - intros Hd. apply elem_of_app in Hd as [Hd|Hd]; [by apply Hdel|].
    rewrite delete_new_calls in Hd. apply elem_of_app in Hd as [Hd|Hd].
    + apply list_elem_of_fmap in Hd as (r' & Heq & Hin).
      apply elem_of_entry_renderers in Hin as [n Hn]. simplify_eq.
      destruct (Hentry n r' Hn) as (l & _ & Hl). eauto.
    + by apply list_elem_of_singleton in Hd.
Qed.

Lemma X12_session_teardown_witness :
  (∃ l, new_LayerRenderer 0 l
          ∈ calls (session [op_render [mkLayer 0 "Background"; mkLayer 1 "Main"];
                            op_render [mkLayer 1 "Main"]]))
  ∧ times (LayerRenderer_delete 0)
      (calls (InstancesRenderer_delete
                (session [op_render [mkLayer 0 "Background"; mkLayer 1 "Main"];
                          op_render [mkLayer 1 "Main"]]))) = 1.
Proof.
  assert (∃ l, new_LayerRenderer 0 l
                 ∈ calls (session [op_render [mkLayer 0 "Background"; mkLayer 1 "Main"];
                                   op_render [mkLayer 1 "Main"]])) as H.
  { exists (mkLayer 0 "Background"). vm_compute. left. }
  split; [exact H|].
  exact (proj1 (X12_session_teardown _ 0) H).
Defined.

(** X4 (an entry lasts as long as its name is reported). An entry keeps its
    renderer over any number of [render()] calls whose layouts all report
    its name, whether these calls return or throw: the renderer is not torn
    down, its drawable is not detached and stays a child of the root
    container. *)
Theorem X4_entry_persists
    (layouts later : list gdLayout) (n : string) (r : ref) :
  layersRenderers (run layouts) !! n = Some r →
  Forall (λ layout, n ∈ layerNames layout) later →
  layersRenderers (run_from (run layouts) later) !! n = Some r
  ∧ r ∈ pixiContainer (run_from (run layouts) later)
  ∧ (LayerRenderer_delete r ∉ new_calls (run layouts) (run_from (run layouts) later))
  ∧ (Container_removeChild r
       ∉ new_calls (run layouts) (run_from (run layouts) later)).
Proof.
  intros Hn Hall.
  pose proof (run_linked layouts) as Hs.
  assert (layersRenderers (run_from (run layouts) later) !! n = Some r
          ∧ (LayerRenderer_delete r
               ∉ new_calls (run layouts) (run_from (run layouts) later))
          ∧ (Container_removeChild r
               ∉ new_calls (run layouts) (run_from (run layouts) later)))
    as (H1 & H2 & H3).
  { induction later as [|layout later IH] using rev_ind.
    - unfold new_calls. simpl. rewrite drop_all.
      split_and!; [done|apply not_elem_of_nil..].
    - apply Forall_app in Hall as [Hall Hin].
      apply Forall_cons in Hin as [Hin _].
      destruct (IH Hall) as (IH1 & IH2 & IH3).
      rewrite run_from_snoc.
      pose proof (run_from_linked _ later Hs) as Hs'.
      destruct (render_keeps layout _ n r Hs' IH1 Hin) as (Hk & Hd & Hr).
      pose proof (run_from_calls_prefix _ later Hs) as Hp.
      pose proof (render_calls_prefix layout _ Hs') as Hp'.
      split_and!.
      + done.
      + rewrite (new_calls_prefix_iff _ _ _ _ Hp Hp'). tauto.
      + rewrite (new_calls_prefix_iff _ _ _ _ Hp Hp'). tauto. }
  split_and!; [done| |done..].
  apply (linked_children _ (run_from_linked _ later Hs)). eauto.
Qed.

Lemma X4_entry_persists_witness :
  layersRenderers (run [[mkLayer 0 "Background"; mkLayer 1 "Main"]]) !! "Main"
  = Some 1
  ∧ Forall (λ layout, "Main" ∈ layerNames layout)
      [[mkLayer 2 "Main"; mkLayer 4 "constructor"];
       [mkLayer 3 "Top"; mkLayer 2 "Main"]]
  ∧ layersRenderers
      (run_from (run [[mkLayer 0 "Background"; mkLayer 1 "Main"]])
         [[mkLayer 2 "Main"; mkLayer 4 "constructor"];
          [mkLayer 3 "Top"; mkLayer 2 "Main"]]) !! "Main"
    = Some 1.
Proof.
  assert (layersRenderers (run [[mkLayer 0 "Background"; mkLayer 1 "Main"]])
            !! "Main" = Some 1) as H1 by (vm_compute; reflexivity).
  assert (Forall (λ layout, "Main" ∈ layerNames layout)
            [[mkLayer 2 "Main"; mkLayer 4 "constructor"];
             [mkLayer 3 "Top"; mkLayer 2 "Main"]]) as H2.
  { repeat constructor. }
  split; [exact H1|]. split; [exact H2|].
  exact (proj1 (X4_entry_persists [[mkLayer 0 "Background"; mkLayer 1 "Main"]]
                  [[mkLayer 2 "Main"; mkLayer 4 "constructor"];
                   [mkLayer 3 "Top"; mkLayer 2 "Main"]]
                  "Main" 1 H1 H2)).
Defined.

(** ** Calls that throw *)



(** After a call that met a layer named [__proto__], a layer named [layer]
    makes the next call throw. *)
Example layer_named_layer :
  returned (render [mkLayer 0 "layer"] constructor) = true
  ∧ returned (render [mkLayer 0 "layer"] (run [[mkLayer 1 "__proto__"]])) = false.
Proof. split; vm_compute; reflexivity. Qed.

(** X24 (what a call that throws leaves). A [render()] call of a session
    that throws has stopped at a layer at some position [k] whose name has
    no entry. The layers before it were handled: their entries are in the
    dictionary and are marked. Neither the sort nor the cleanup has run:
    every entry of before the call is still there with its drawable, the
    children of before the call are the first children in their order of
    before, nothing was torn down or detached, and [k] renders were asked
    for. *)
Theorem X24_what_a_throw_leaves
    (ops : list operation) (layout : gdLayout) (s' : InstancesRenderer) :
  render layout (session ops) = Thrown s' →
  ∃ k l,
    layout !! k = Some l
    ∧ layersRenderers s' !! getName l = None
    ∧ (∀ j lj, j < k → layout !! j = Some lj →
         ∃ r, layersRenderers s' !! getName lj = Some r ∧ get_wasUsed s' r = true)
    ∧ (∀ n r, layersRenderers (session ops) !! n = Some r →
         layersRenderers s' !! n = Some r ∧ r ∈ pixiContainer s')
    ∧ pixiContainer (session ops) `prefix_of` pixiContainer s'
    ∧ (∀ r, (LayerRenderer_delete r ∉ new_calls (session ops) s')
            ∧ (Container_removeChild r ∉ new_calls (session ops) s'))
    ∧ render_count (new_calls (session ops) s') = k.
Proof.
  intros E. destruct (session_sound ops) as (Hs & _).
  apply render_Thrown_calls in E as (k & l & Hk & Hget & -> & Hm & Hc).
  pose proof (reconcile_layers_linked (take k layout) 0 _ Hs) as Hs1.
  destruct (write_to_inherited_frame (getName l)
              (reconcile_layers 0 (take k layout) (session ops)))
    as (_ & Hch & Hh & _).
  exists k, l. split_and!.
  - done.
  - rewrite Hm. by apply get_layersRenderers_inherited in Hget as [? _].
  - intros j lj Hj Hlj.
    assert (getName lj ∈ layerNames (take k layout)) as Hin.
    { apply list_elem_of_fmap_2, list_elem_of_lookup. exists j.
      by rewrite lookup_take_lt. }
    destruct (reconcile_layers_in (take k layout) 0 (session ops) _ Hin) as [r Hr].
    exists r. rewrite Hm. split; [done|]. unfold get_wasUsed. rewrite Hh.
    by apply (reconcile_layers_used (take k layout) 0 (session ops) (getName lj)).
  - intros n r Hn.
    pose proof (reconcile_layers_kept (take k layout) 0 _ _ _ Hn) as Hn1.
    split; [by rewrite Hm|]. rewrite Hch. apply (linked_children _ Hs1). eauto.
  - rewrite Hch. apply reconcile_layers_children_prefix.
  - intros r. rewrite Hc.
    split; intros Hin;
      apply loop_calls_elem in Hin as [[? ?]|[[? ?]|(? & ? & ? & _)]]; done.
  - rewrite Hc, render_count_loop_calls, length_take.
    apply lookup_lt_Some in Hk. lia.
Qed.

Lemma X24_what_a_throw_leaves_witness :
  render [mkLayer 2 "Top"; mkLayer 3 "constructor"; mkLayer 1 "Main"]
    (session [op_render [mkLayer 0 "Background"; mkLayer 1 "Main"]])
  = Thrown (state_of
              (render [mkLayer 2 "Top"; mkLayer 3 "constructor"; mkLayer 1 "Main"]
                 (session [op_render [mkLayer 0 "Background"; mkLayer 1 "Main"]])))
  ∧ ∃ k l,
      [mkLayer 2 "Top"; mkLayer 3 "constructor"; mkLayer 1 "Main"] !! k = Some l
      ∧ layersRenderers
          (state_of
             (render [mkLayer 2 "Top"; mkLayer 3 "constructor"; mkLayer 1 "Main"]
                (session [op_render [mkLayer 0 "Background"; mkLayer 1 "Main"]])))
        !! getName l = None.
Proof.
  assert (render [mkLayer 2 "Top"; mkLayer 3 "constructor"; mkLayer 1 "Main"]
            (session [op_render [mkLayer 0 "Background"; mkLayer 1 "Main"]])
          = Thrown (state_of
                      (render [mkLayer 2 "Top"; mkLayer 3 "constructor";
                               mkLayer 1 "Main"]
                         (session [op_render [mkLayer 0 "Background";
                                              mkLayer 1 "Main"]]))))
    as H by (vm_compute; reflexivity).
  split; [exact H|].
  destruct (X24_what_a_throw_leaves _ _ _ H) as (k & l & H1 & H2 & _).
  exists k, l. split; [exact H1|exact H2].
Defined.

(** X25 (one returning call to recover). Whatever the calls of a session
    did, after two [render()] calls in a row that return the dictionary is
    keyed by exactly the names the layout of the second reports, no entry is
    marked, and, when these names are pairwise distinct, there are as many
    entries as layers and the children are the drawables of the layers in
    layout order. The first of the two may still keep entries that a call
    that threw has left marked. *)
Theorem X25_recovery (ops : list operation) (layout1 layout2 : gdLayout) :
  returned (render layout1 (session ops)) = true →
  returned (render layout2 (session (ops ++ [op_render layout1]))) = true →
  dom (layersRenderers (session (ops ++ [op_render layout1; op_render layout2])))
  = list_to_set (layerNames layout2)
  ∧ idle (session (ops ++ [op_render layout1; op_render layout2]))
  ∧ (NoDup (layerNames layout2) →
       size (layersRenderers
               (session (ops ++ [op_render layout1; op_render layout2])))
       = getLayersCount layout2
       ∧ pixiContainer (session (ops ++ [op_render layout1; op_render layout2]))
         = layer_drawables
             (session (ops ++ [op_render layout1; op_render layout2])) layout2).
Proof.
  intros Hret1 Hret2.
  destruct (session_sound ops) as (Hs & _).
  assert (session (ops ++ [op_render layout1]) = reconcile layout1 (session ops))
    as Hrun1.
  { by rewrite session_snoc; simpl; rewrite (render_returned_eq _ _ Hret1). }
  rewrite Hrun1 in Hret2.
  assert (session (ops ++ [op_render layout1; op_render layout2])
          = reconcile layout2 (reconcile layout1 (session ops))) as ->.
  { change [op_render layout1; op_render layout2]
      with ([op_render layout1] ++ [op_render layout2]).
    rewrite app_assoc, session_snoc, Hrun1. simpl.
    by rewrite (render_returned_eq _ _ Hret2). }
  assert (linked (reconcile layout1 (session ops))) as Hs1 by by apply reconcile_linked.
  assert (idle (reconcile layout1 (session ops))) as Hi1 by by apply reconcile_idle.
  pose proof (reconcile_dom layout2 _ Hs1 Hi1) as Hdom.
  split_and!; [done|by apply reconcile_idle|].
  intros Hnd. split.
  - rewrite <- size_dom, Hdom, size_list_to_set by done.
    unfold layerNames, getLayersCount. by rewrite length_fmap.
  - by apply reconcile_children.
Qed.

Lemma X25_recovery_witness :
  returned (render [mkLayer 2 "Top"]
              (session [op_render [mkLayer 0 "Main"; mkLayer 1 "constructor"]]))
  = true
  ∧ returned (render [mkLayer 2 "Top"]
                (session ([op_render [mkLayer 0 "Main"; mkLayer 1 "constructor"]]
                          ++ [op_render [mkLayer 2 "Top"]]))) = true
  ∧ dom (layersRenderers
           (session ([op_render [mkLayer 0 "Main"; mkLayer 1 "constructor"]]
                     ++ [op_render [mkLayer 2 "Top"]; op_render [mkLayer 2 "Top"]])))
    = list_to_set (layerNames [mkLayer 2 "Top"]).
Proof.
  assert (returned (render [mkLayer 2 "Top"]
                      (session [op_render [mkLayer 0 "Main"; mkLayer 1 "constructor"]]))
          = true) as H1 by (vm_compute; reflexivity).
  assert (returned (render [mkLayer 2 "Top"]
                      (session ([op_render [mkLayer 0 "Main"; mkLayer 1 "constructor"]]
                                ++ [op_render [mkLayer 2 "Top"]]))) = true)
    as H2 by (vm_compute; reflexivity).
  split; [exact H1|]. split; [exact H2|].
  exact (proj1 (X25_recovery _ _ _ H1 H2)).
Defined.

(** The call after one that threw returns with an entry too many; the call
    after that one has the entries of its layout. *)
Example entries_after_a_throw :
  layersRenderers (run [[mkLayer 0 "Main"; mkLayer 1 "constructor"];
                        [mkLayer 2 "Top"]]) !! "Main" = Some 0
  ∧ size (layersRenderers (run [[mkLayer 0 "Main"; mkLayer 1 "constructor"];
                                [mkLayer 2 "Top"]])) = 2
  ∧ map_to_list (layersRenderers
                   (run [[mkLayer 0 "Main"; mkLayer 1 "constructor"];
                         [mkLayer 2 "Top"]; [mkLayer 2 "Top"]]))
    = [("Top", 1)].
Proof. split_and!; vm_compute; reflexivity. Qed.

(** X13 (one [render()] per layer). A [render()] call of a session that
    returns has asked for exactly as many [LayerRenderer] renders as the
    layout has layers, one per layer position: a renderer shared by layers
    of the same name renders once per such layer. A call that throws has
    asked for fewer: one per layer before the one it threw on. In both
    cases a renderer torn down by the call was not rendered by it. *)
Theorem X13_render_per_layer (ops : list operation) (layout : gdLayout) :
  (returned (render layout (session ops)) = true →
     render_count (new_calls (session ops) (state_of (render layout (session ops))))
     = getLayersCount layout)
  ∧ (returned (render layout (session ops)) = false →
       render_count
         (new_calls (session ops) (state_of (render layout (session ops))))
       < getLayersCount layout)
  ∧ (∀ r, LayerRenderer_delete r
            ∈ new_calls (session ops) (state_of (render layout (session ops))) →
          LayerRenderer_render r
            ∉ new_calls (session ops) (state_of (render layout (session ops)))).
Proof.
  destruct (session_sound ops) as (Hs & _).
  pose proof (new_calls_app _ _ _ (reconcile_calls layout _ Hs)) as Hnc.
  destruct (render layout (session ops)) as [s'|s'] eqn:E; simpl.
  - apply render_Normal in E as ->. rewrite Hnc. split_and!; [|done|].
    + intros _.
      by rewrite render_count_app, render_count_loop_calls, render_count_clean_calls.
    + intros r Hd Hr.
      pose proof (reconcile_layers_linked layout 0 _ Hs) as Hs1.
      destruct (updateZOrder_frame (reconcile_layers 0 layout (session ops))) as (Hm & _).
      apply elem_of_app in Hd as [Hd|Hd].
      { apply loop_calls_elem in Hd as [[? ?]|[[? ?]|(? & ? & ? & _)]]; done. }
      apply elem_of_clean_calls in Hd as (n & r' & _ & Hn & Hu & Hc).
      assert (r' = r) as -> by (destruct Hc; by simplify_eq).
      rewrite Hm in Hn. rewrite updateZOrder_get_wasUsed in Hu.
      apply elem_of_app in Hr as [Hr|Hr].
      * apply loop_calls_render_entry in Hr as (l & Hl & Hr).
        assert (getName l ∈ layerNames layout) as Hin by by apply list_elem_of_fmap_2.
        rewrite (reconcile_layers_used layout 0 _ (getName l) r Hs Hin Hr) in Hu. done.
      * apply elem_of_clean_calls in Hr as (? & ? & _ & _ & _ & [?|?]); done.
  - apply render_Thrown_calls in E as (k & l & Hk & _ & _ & _ & ->).
    split_and!; [done| |].
    + intros _. rewrite render_count_loop_calls, length_take.
      apply lookup_lt_Some in Hk. unfold getLayersCount. lia.
    + intros r Hd.
      apply loop_calls_elem in Hd as [[? ?]|[[? ?]|(? & ? & ? & _)]]; done.
Qed.

Lemma X13_render_per_layer_witness :
  returned (render [mkLayer 1 "Main"; mkLayer 2 "constructor"; mkLayer 3 "Top"]
              (session [op_render [mkLayer 0 "Background"; mkLayer 1 "Main"]]))
  = false
  ∧ render_count
      (new_calls (session [op_render [mkLayer 0 "Background"; mkLayer 1 "Main"]])
         (state_of
            (render [mkLayer 1 "Main"; mkLayer 2 "constructor"; mkLayer 3 "Top"]
               (session [op_render [mkLayer 0 "Background"; mkLayer 1 "Main"]]))))
    < getLayersCount [mkLayer 1 "Main"; mkLayer 2 "constructor"; mkLayer 3 "Top"].
Proof.
  assert (returned
            (render [mkLayer 1 "Main"; mkLayer 2 "constructor"; mkLayer 3 "Top"]
               (session [op_render [mkLayer 0 "Background"; mkLayer 1 "Main"]]))
          = false) as H by (vm_compute; reflexivity).
  split; [exact H|].
  exact (proj1 (proj2 (X13_render_per_layer
                  [op_render [mkLayer 0 "Background"; mkLayer 1 "Main"]]
                  [mkLayer 1 "Main"; mkLayer 2 "constructor"; mkLayer 3 "Top"])) H).
Defined.

(** ** Passes over layouts without inherited names *)





(** Two layers swapped between two passes: the children follow. *)
Example swapped_layers_children :
  pixiContainer
    (run [[mkLayer 0 "Background"; mkLayer 1 "Main"];
          [mkLayer 2 "Main"; mkLayer 3 "Background"]]) = [1; 0].
Proof. vm_compute. reflexivity. Qed.

(** The layout ["Background"; "Main"] rendered, then reduced to ["Main"]: the
    entry of "Main" is reused with [zOrder] 0, the one of "Background" is
    gone, and one child is left. *)
Example background_removed :
  map_to_list (layersRenderers
                 (run [[mkLayer 0 "Background"; mkLayer 1 "Main"];
                       [mkLayer 1 "Main"]])) = [("Main", 1)]
  ∧ pixiContainer (run [[mkLayer 0 "Background"; mkLayer 1 "Main"];
                        [mkLayer 1 "Main"]]) = [1]
  ∧ zOrder (run [[mkLayer 0 "Background"; mkLayer 1 "Main"];
                 [mkLayer 1 "Main"]]) !! 1 = Some 0%Z
  ∧ new_calls (run [[mkLayer 0 "Background"; mkLayer 1 "Main"]])
      (run [[mkLayer 0 "Background"; mkLayer 1 "Main"]; [mkLayer 1 "Main"]])
    = [LayerRenderer_render 1; Container_removeChild 0; LayerRenderer_delete 0].
Proof. vm_compute. repeat split; reflexivity. Qed.





(** ** Layouts without layers, layouts with repeated names *)




(** A renderer left marked by a call that threw outlasts one call over the
    empty layout, and not two. *)
Example empty_layout_after_a_throw :
  map_to_list (layersRenderers
                 (run [[mkLayer 0 "Main"; mkLayer 1 "constructor"]; []]))
  = [("Main", 0)]
  ∧ layersRenderers (run [[mkLayer 0 "Main"; mkLayer 1 "constructor"]; []; []])
    = ∅.
Proof. split; vm_compute; reflexivity. Qed.





(** X9 (a pass from an empty dictionary). From a state without entries, as
    after the constructor, a [render()] call that returns, over a layout with
    distinct names, constructs one renderer per layer, in layout order, each
    followed by the attachment of its drawable and by its [render()];
    nothing is torn down; the layer at position [k] gets the [k]-th object
    constructed, and the children are these objects in order. *)
Theorem X9_first_pass (s : InstancesRenderer) (layout : gdLayout) :
  linked s → layersRenderers s = ∅ → NoDup (layerNames layout) →
  returned (render layout s) = true →
  new_calls s (state_of (render layout s)) = first_pass_calls (nextRef s) layout
  ∧ (∀ k l, layout !! k = Some l →
       layersRenderers (state_of (render layout s)) !! getName l
       = Some (nextRef s + k))
  ∧ pixiContainer (state_of (render layout s)) = seq (nextRef s) (length layout).
Proof.
  intros Hs Hempty Hnd Hret.
  rewrite (render_returned_eq _ _ Hret), state_of_Normal.
  assert (idle s) as Hi.
  { intros n r Hn. by rewrite Hempty, lookup_empty in Hn. }
  destruct (loop_calls_absent layout 0 s Hnd) as [Hcalls Hentries].
  { intros l _. by rewrite Hempty, lookup_empty. }
  assert (∀ k l, layout !! k = Some l →
            layersRenderers (reconcile layout s) !! getName l = Some (nextRef s + k))
    as Hafter.
  { intros k l Hk. apply reconcile_lookup; [done..|]. split; [|by apply Hentries].
    apply list_elem_of_fmap_2. by eapply list_elem_of_lookup_2. }
  split_and!.
  - rewrite (new_calls_app _ _ _ (reconcile_calls layout s Hs)), Hcalls.
    rewrite clean_calls_nil; [by rewrite app_nil_r|].
    intros n r Hn Hr.
    destruct (updateZOrder_frame (reconcile_layers 0 layout s)) as (Hm' & _).
    rewrite Hm' in Hr. rewrite updateZOrder_get_wasUsed.
    apply (reconcile_layers_used layout 0 s n r); [done| |done].
    apply reconcile_layers_origin in Hr as [Hr|(_ & ? & _)]; [|done].
    by rewrite Hempty, lookup_empty in Hr.
  - done.
  - rewrite reconcile_children by done. apply list_eq. intros k.
    unfold layer_drawables. rewrite list_lookup_fmap.
    destruct (layout !! k) as [l|] eqn:Hk; simpl.
    + rewrite (renderer_for_Some _ _ _ (Hafter k l Hk)).
      symmetry. apply lookup_seq_lt. by eapply lookup_lt_Some.
    + symmetry. apply lookup_seq_ge. by apply lookup_ge_None.
Qed.

Lemma X9_first_pass_witness :
  linked constructor
  ∧ layersRenderers constructor = ∅
  ∧ NoDup (layerNames [mkLayer 0 "Background"; mkLayer 1 "Main"])
  ∧ returned (render [mkLayer 0 "Background"; mkLayer 1 "Main"] constructor) = true
  ∧ new_calls constructor
      (state_of (render [mkLayer 0 "Background"; mkLayer 1 "Main"] constructor))
    = first_pass_calls (nextRef constructor)
        [mkLayer 0 "Background"; mkLayer 1 "Main"].
Proof.
  assert (layersRenderers constructor = ∅) as He by reflexivity.
  assert (NoDup (layerNames [mkLayer 0 "Background"; mkLayer 1 "Main"])) as H.
  { simpl. apply NoDup_cons. split; [|apply NoDup_singleton].
    by intros [=]%list_elem_of_singleton. }
  assert (returned (render [mkLayer 0 "Background"; mkLayer 1 "Main"] constructor)
          = true) as Hret by (vm_compute; reflexivity).
  split; [exact constructor_linked|]. split; [exact He|]. split; [exact H|].
  split; [exact Hret|].
  exact (proj1 (X9_first_pass constructor
                  [mkLayer 0 "Background"; mkLayer 1 "Main"]
                  constructor_linked He H Hret)).
Defined.

(** ** The marks *)

Lemma render_returned_loop layout s :
  returned (render layout s) = true →
  render_layers 0 layout s = Normal (reconcile_layers 0 layout s).
Proof.
  unfold render. destruct (render_layers 0 layout s) as [s'|s'] eqn:E; [|done].
  intros _. by rewrite (render_layers_Normal _ _ _ _ E).
Qed.

(** X21 (liveness flag of a call that returns). At the end of every
    [render()] call of a session that returns, whatever the calls before it
    did, no entry of the dictionary is marked. The cleanup step, run after
    the loop of the pass, keeps exactly the entries that are marked when the
    loop ends and resets their mark; every entry unmarked then is removed
    from the dictionary, its renderer torn down and its drawable
    detached. *)
Theorem X21_liveness_flag (ops : list operation) (layout : gdLayout) :
  returned (render layout (session ops)) = true →
  (∀ n r, layersRenderers (state_of (render layout (session ops))) !! n = Some r →
     wasUsed <$> heap (state_of (render layout (session ops))) !! r = Some false)
  ∧ (∀ n r,
       layersRenderers (_updatePixiObjectsZOrder
                          (state_of (render_layers 0 layout (session ops)))) !! n
       = Some r →
       if get_wasUsed (_updatePixiObjectsZOrder
                         (state_of (render_layers 0 layout (session ops)))) r
       then
         layersRenderers (state_of (render layout (session ops))) !! n = Some r
         ∧ get_wasUsed (state_of (render layout (session ops))) r = false
       else
         layersRenderers (state_of (render layout (session ops))) !! n = None
         ∧ (r ∉ pixiContainer (state_of (render layout (session ops))))
         ∧ LayerRenderer_delete r
             ∈ new_calls (_updatePixiObjectsZOrder
                            (state_of (render_layers 0 layout (session ops))))
                 (state_of (render layout (session ops)))).
Proof.
  intros Hret.
  rewrite (render_returned_eq _ _ Hret), (render_returned_loop _ _ Hret),
    !state_of_Normal.
  destruct (session_sound ops) as (Hs & _).
  set (s2 := _updatePixiObjectsZOrder (reconcile_layers 0 layout (session ops))).
  assert (linked s2) as Hs2
    by by apply updateZOrder_linked, reconcile_layers_linked.
  change (reconcile layout (session ops)) with (_cleanUnusedLayerRenderers s2).
  destruct (clean_spec s2 Hs2) as (Hs3 & _ & _ & _ & Hm & Hh & Hc).
  split.
  - intros n r Hn. rewrite Hm in Hn. rewrite (Hh n r Hn).
    assert (is_Some (heap s2 !! r)) as [o ->]; [|done].
    unfold swept in Hn. destruct (layersRenderers s2 !! n) as [r'|] eqn:E; [|done].
    destruct (get_wasUsed s2 r'); simplify_eq. by apply (linked_heap s2 Hs2 n).
  - intros n r Hn. destruct (get_wasUsed s2 r) eqn:Hu.
    + assert (swept s2 n = Some r) as Hsw by (unfold swept; by rewrite Hn, Hu).
      split; [by rewrite Hm|].
      unfold get_wasUsed. rewrite (Hh n r Hsw). by destruct (heap s2 !! r).
    + assert (∀ n', layersRenderers (_cleanUnusedLayerRenderers s2) !! n' ≠ Some r)
        as Habs.
      { intros n' Hn'. rewrite Hm in Hn'. unfold swept in Hn'.
        destruct (layersRenderers s2 !! n') as [r'|] eqn:E; [|done].
        destruct (get_wasUsed s2 r') eqn:Hu'; simplify_eq. congruence. }
      split_and!.
      * rewrite Hm. unfold swept. by rewrite Hn, Hu.
      * rewrite (linked_children _ Hs3). intros [n' Hn']. by apply (Habs n').
      * rewrite (new_calls_app _ _ _ Hc). apply elem_of_clean_calls.
        exists n, r. rewrite elem_of_own_keys, Hn. eauto.
Qed.

Lemma X21_liveness_flag_witness :
  returned (render [mkLayer 1 "Main"]
              (session [op_render [mkLayer 0 "Background"; mkLayer 1 "Main"];
                        op_render [mkLayer 2 "constructor"]])) = true
  ∧ wasUsed <$> heap (state_of
                        (render [mkLayer 1 "Main"]
                           (session [op_render [mkLayer 0 "Background";
                                                mkLayer 1 "Main"];
                                     op_render [mkLayer 2 "constructor"]]))) !! 1
    = Some false.
Proof.
  assert (returned (render [mkLayer 1 "Main"]
                      (session [op_render [mkLayer 0 "Background"; mkLayer 1 "Main"];
                                op_render [mkLayer 2 "constructor"]])) = true)
    as Hret by (vm_compute; reflexivity).
  assert (layersRenderers
            (state_of (render [mkLayer 1 "Main"]
               (session [op_render [mkLayer 0 "Background"; mkLayer 1 "Main"];
                         op_render [mkLayer 2 "constructor"]]))) !! "Main"
          = Some 1) as H by (vm_compute; reflexivity).
  split; [exact Hret|].
  exact (proj1 (X21_liveness_flag _ _ Hret) "Main" 1 H).
Defined.

(** ** [_updatePixiObjectsZOrder] on its own *)

(** X6 (the sort step). [_updatePixiObjectsZOrder], in any state: the
    children after it are the children of before, reordered in ascending
    [zOrder] (where [undefined] counts as [0]); the dictionary, the renderers
    and the record of calls are untouched; and a second run changes nothing
    more. *)
Theorem X6_sort_step (s : InstancesRenderer) :
  pixiContainer (_updatePixiObjectsZOrder s) ≡ₚ pixiContainer s
  ∧ StronglySorted (zOrder_le (zOrder s)) (pixiContainer (_updatePixiObjectsZOrder s))
  ∧ layersRenderers (_updatePixiObjectsZOrder s) = layersRenderers s
  ∧ heap (_updatePixiObjectsZOrder s) = heap s
  ∧ calls (_updatePixiObjectsZOrder s) = calls s
  ∧ _updatePixiObjectsZOrder (_updatePixiObjectsZOrder s)
    = _updatePixiObjectsZOrder s.
Proof.
  destruct (updateZOrder_frame s) as (Hm & Hh & _ & Hc).
  split_and!; [apply updateZOrder_Permutation| |done..|].
  - pose proof (updateZOrder_sorted s) as Hsorted.
    apply StronglySorted_lookup. intros i j a b Hij Hi Hj.
    pose proof (proj1 (StronglySorted_lookup _ _) Hsorted i j a b Hij Hi Hj) as Hab.
    unfold zOrder_le in *. by rewrite !updateZOrder_or_0 in Hab.
  - pose proof (updateZOrder_sorted s) as Hsorted.
    unfold _updatePixiObjectsZOrder at 1.
    case_decide as Hlen; [done|].
    unfold _updatePixiObjectsZOrder in *.
    case_decide as Hlen'; simpl in *; [lia|].
    unfold set_children, set_zOrders. simpl.
    rewrite (coalesce_zOrders_defined (sort_children _ _)
               (coalesce_zOrders (pixiContainer s) (zOrder s))).
    + by rewrite sort_children_sorted_id.
    + intros c Hin. rewrite sort_children_Permutation in Hin.
      rewrite coalesce_zOrders_lookup by done. by eexists.
Qed.

(** X7 (defaulting of [zOrder]). With two children or more, the comparator
    of [_updatePixiObjectsZOrder] leaves every child with a defined
    [zOrder]: the one it had, [0] if it had none; the [zOrder] of objects
    that are not children is not touched. With fewer than two children the
    comparator does not run and the state stays as it is, an undefined
    [zOrder] included. *)
Theorem X7_zOrder_defaulting (s : InstancesRenderer) :
  (2 ≤ length (pixiContainer s) →
     (∀ c, c ∈ pixiContainer s →
        zOrder (_updatePixiObjectsZOrder s) !! c
        = Some (default 0%Z (zOrder s !! c)))
     ∧ (∀ c, c ∉ pixiContainer s →
          zOrder (_updatePixiObjectsZOrder s) !! c = zOrder s !! c))
  ∧ (length (pixiContainer s) < 2 → _updatePixiObjectsZOrder s = s).
Proof.
  unfold _updatePixiObjectsZOrder. split; intros Hlen; case_decide; try lia.
  - simpl. split; intros c Hc.
    + by apply coalesce_zOrders_lookup.
    + by apply coalesce_zOrders_other.
  - done.
Qed.

Lemma X7_zOrder_defaulting_witness :
  2 ≤ length (pixiContainer
                (set_zOrders (λ _, ∅) (run [[mkLayer 0 "Background"; mkLayer 1 "Main"]])))
  ∧ zOrder (_updatePixiObjectsZOrder
              (set_zOrders (λ _, ∅)
                 (run [[mkLayer 0 "Background"; mkLayer 1 "Main"]]))) !! 1
    = Some (default 0%Z
              (zOrder (set_zOrders (λ _, ∅)
                         (run [[mkLayer 0 "Background"; mkLayer 1 "Main"]])) !! 1)).
Proof.
  assert (2 ≤ length (pixiContainer
                        (set_zOrders (λ _, ∅)
                           (run [[mkLayer 0 "Background"; mkLayer 1 "Main"]]))))
    as H by (vm_compute; lia).
  assert (1 ∈ pixiContainer
                (set_zOrders (λ _, ∅)
                   (run [[mkLayer 0 "Background"; mkLayer 1 "Main"]]))) as Hc.
  { vm_compute. right. left. }
  split; [exact H|].
  exact (proj1 (proj1 (X7_zOrder_defaulting _) H) 1 Hc).
Defined.

(** ** The measurer *)

Section measurer.
Context {number : Type} (zero : number) `{!LayerRendererGeometry number}.

(** X20 (measurer fallback for a layer name that is not inherited). In any
    state, for an instance whose layer name is not the name of a member that
    the dictionary inherits: when the name has no entry, [getInstanceLeft]
    and [getInstanceTop] return the stored [getX()] and [getY()], and
    [getInstanceWidth] and [getInstanceHeight] return the custom size when
    [hasCustomSize()], [0] otherwise; when the name has an entry, left and
    top are the answers of its renderer, and width and height are the custom
    size when [hasCustomSize()], the answers of the renderer otherwise. None
    of the five queries ends with a [TypeError]. *)
Theorem X20_measurer_fallback (s : InstancesRenderer)
    (instance : gdInitialInstance number) :
  inherited s (getLayer instance) = false →
  (layersRenderers s !! getLayer instance = None →
     instanceMeasurer.getInstanceLeft s instance = Returns (getX instance)
     ∧ instanceMeasurer.getInstanceTop s instance = Returns (getY instance)
     ∧ instanceMeasurer.getInstanceWidth zero s instance
       = Returns (if hasCustomSize instance then getCustomWidth instance else zero)
     ∧ instanceMeasurer.getInstanceHeight zero s instance
       = Returns (if hasCustomSize instance then getCustomHeight instance else zero))
  ∧ (∀ r, layersRenderers s !! getLayer instance = Some r →
       instanceMeasurer.getInstanceLeft s instance
       = Returns (LayerRenderer_getInstanceLeft r instance)
       ∧ instanceMeasurer.getInstanceTop s instance
         = Returns (LayerRenderer_getInstanceTop r instance)
       ∧ instanceMeasurer.getInstanceWidth zero s instance
         = Returns (if hasCustomSize instance then getCustomWidth instance
                    else LayerRenderer_getInstanceWidth r instance)
       ∧ instanceMeasurer.getInstanceHeight zero s instance
         = Returns (if hasCustomSize instance then getCustomHeight instance
                    else LayerRenderer_getInstanceHeight r instance))
  ∧ instanceMeasurer.getInstanceLeft s instance ≠ TypeError
  ∧ instanceMeasurer.getInstanceTop s instance ≠ TypeError
  ∧ instanceMeasurer.getInstanceWidth zero s instance ≠ TypeError
  ∧ instanceMeasurer.getInstanceHeight zero s instance ≠ TypeError
  ∧ instanceMeasurer.getInstanceRect zero s instance ≠ TypeError.
Proof.
  intros Hinh.
  unfold instanceMeasurer.getInstanceRect, instanceMeasurer.getInstanceLeft,
    instanceMeasurer.getInstanceTop, instanceMeasurer.getInstanceWidth,
    instanceMeasurer.getInstanceHeight, get_layersRenderers.
  rewrite Hinh.
  split_and!.
  - intros ->. simpl. by destruct (hasCustomSize instance).
  - intros r ->. simpl. by destruct (hasCustomSize instance).
  - by destruct (layersRenderers s !! getLayer instance).
  - by destruct (layersRenderers s !! getLayer instance).
  - by destruct (hasCustomSize instance), (layersRenderers s !! getLayer instance).
  - by destruct (hasCustomSize instance), (layersRenderers s !! getLayer instance).
  - by destruct (hasCustomSize instance), (layersRenderers s !! getLayer instance).
Qed.

(** X22 (rect). [getInstanceRect] returns a record exactly when
    [getInstanceLeft], [getInstanceTop], [getInstanceWidth] and
    [getInstanceHeight] all return for the same instance in the same state,
    and the record then holds their four values; it throws as soon as one of
    them throws. For an instance whose layer name is not the name of an
    inherited member it returns. *)
Theorem X22_rect_composed (s : InstancesRenderer)
    (instance : gdInitialInstance number) :
  (∀ rect,
     instanceMeasurer.getInstanceRect zero s instance = Returns rect
     ↔ instanceMeasurer.getInstanceLeft s instance
       = Returns (instanceMeasurer.x rect)
       ∧ instanceMeasurer.getInstanceTop s instance
         = Returns (instanceMeasurer.y rect)
       ∧ instanceMeasurer.getInstanceWidth zero s instance
         = Returns (instanceMeasurer.width rect)
       ∧ instanceMeasurer.getInstanceHeight zero s instance
         = Returns (instanceMeasurer.height rect))
  ∧ (instanceMeasurer.getInstanceRect zero s instance = TypeError
     ↔ instanceMeasurer.getInstanceLeft s instance = TypeError
       ∨ instanceMeasurer.getInstanceTop s instance = TypeError
       ∨ instanceMeasurer.getInstanceWidth zero s instance = TypeError
       ∨ instanceMeasurer.getInstanceHeight zero s instance = TypeError)
  ∧ (inherited s (getLayer instance) = false →
     ∃ rect, instanceMeasurer.getInstanceRect zero s instance = Returns rect).
Proof.
  unfold instanceMeasurer.getInstanceRect.
  destruct (instanceMeasurer.getInstanceLeft s instance) as [left|] eqn:Hleft;
    destruct (instanceMeasurer.getInstanceTop s instance) as [top|] eqn:Htop;
    destruct (instanceMeasurer.getInstanceWidth zero s instance) as [w|] eqn:Hw;
    destruct (instanceMeasurer.getInstanceHeight zero s instance) as [h|] eqn:Hh;
    simpl.
  all: split_and!;
    [intros [x y w' h']; simpl; split;
       [intros [=]; by subst|intros ([=] & [=] & [=] & [=]); by subst]
    |intuition congruence
    |intros Hinh].
  all: try by eexists.
  all: revert Hleft Htop Hw Hh;
    unfold instanceMeasurer.getInstanceLeft, instanceMeasurer.getInstanceTop,
      instanceMeasurer.getInstanceWidth, instanceMeasurer.getInstanceHeight,
      get_layersRenderers; rewrite Hinh;
    destruct (hasCustomSize instance),
      (layersRenderers s !! getLayer instance); simpl; congruence.
Qed.

End measurer.

Lemma X20_measurer_fallback_witness :
  inherited constructor "Main" = false
  ∧ layersRenderers constructor !! "Main" = None
  ∧ instanceMeasurer.getInstanceWidth 0%Z constructor
      (mkInstance "Main" 10%Z 20%Z false 0%Z 0%Z) = Returns 0%Z.
Proof.
  assert (inherited constructor "Main" = false) as Hi by reflexivity.
  assert (layersRenderers constructor !! "Main" = None) as H by reflexivity.
  split; [exact Hi|]. split; [exact H|].
  exact (proj1 (proj2 (proj2
    (proj1 (X20_measurer_fallback 0%Z constructor
              (mkInstance "Main" 10%Z 20%Z false 0%Z 0%Z) Hi) H)))).
Defined.

Lemma X22_rect_composed_witness :
  inherited (run [[mkLayer 0 "Background"; mkLayer 1 "Main"]]) "Main" = false
  ∧ ∃ rect,
      instanceMeasurer.getInstanceRect 0%Z
        (run [[mkLayer 0 "Background"; mkLayer 1 "Main"]])
        (mkInstance "Main" 10%Z 20%Z false 0%Z 0%Z) = Returns rect.
Proof.
  assert (inherited (run [[mkLayer 0 "Background"; mkLayer 1 "Main"]]) "Main"
          = false) as Hi by (vm_compute; reflexivity).
  split; [exact Hi|].
  exact (proj2 (proj2
    (X22_rect_composed 0%Z (run [[mkLayer 0 "Background"; mkLayer 1 "Main"]])
       (mkInstance "Main" 10%Z 20%Z false 0%Z 0%Z))) Hi).
Defined.

Example measurer_with_renderer :
  instanceMeasurer.getInstanceRect 0%Z
    (run [[mkLayer 0 "Background"; mkLayer 1 "Main"]])
    (mkInstance "Main" 10%Z 20%Z false 0%Z 0%Z)
  = Returns (instanceMeasurer.mkRect 11 21 32 16)%Z.
Proof. vm_compute. reflexivity. Qed.

Section measurer_after_render.
Context {number : Type} (zero : number) `{!LayerRendererGeometry number}.


End measurer_after_render.


(** ** [render()] after [delete()] *)

(** X15 ([delete()] has to be the last call). [delete()] leaves the entries
    in the dictionary, so that a [render()] call run after it takes the
    renderers torn down by [delete()] for live ones: when the call returns,
    for every entry whose name the layout reports, no renderer is constructed
    and [render()] is called on the renderer that was torn down. *)
Theorem X15_render_after_delete
    (s : InstancesRenderer) (layout : gdLayout) (n : string) (r : ref) :
  linked s → layersRenderers s !! n = Some r → n ∈ layerNames layout →
  returned (render layout (InstancesRenderer_delete s)) = true →
  LayerRenderer_delete r ∈ calls (InstancesRenderer_delete s)
  ∧ LayerRenderer_render r
      ∈ new_calls (InstancesRenderer_delete s)
          (state_of (render layout (InstancesRenderer_delete s)))
  ∧ (∀ r' l, new_LayerRenderer r' l
               ∈ new_calls (InstancesRenderer_delete s)
                   (state_of (render layout (InstancesRenderer_delete s))) →
             getName l ≠ n)
  ∧ ¬ teardown_is_final
        (calls (state_of (render layout (InstancesRenderer_delete s)))).
Proof.
  intros Hs Hn Hin Hret.
  rewrite (render_returned_eq _ _ Hret), state_of_Normal.
  assert (InstancesRenderer_delete s
          = set_calls (calls (InstancesRenderer_delete s)) s) as Hdel.
  { unfold InstancesRenderer_delete. by rewrite delete_layers_eq. }
  assert (calls (InstancesRenderer_delete s)
          = calls s ++ (LayerRenderer_delete <$> entry_renderers s)
              ++ [Container_destroy]) as Hcalls.
  { unfold InstancesRenderer_delete. rewrite delete_layers_eq. simpl.
    by rewrite <- app_assoc. }
  assert (LayerRenderer_delete r ∈ calls (InstancesRenderer_delete s)) as Hd.
  { rewrite Hcalls, !elem_of_app. right; left.
    apply list_elem_of_fmap_2, elem_of_entry_renderers. eauto. }
  pose proof (call_blind_new_calls (reconcile layout) s
                (calls (InstancesRenderer_delete s)) (reconcile_call_blind layout))
    as Hrender.
  rewrite <- Hdel in Hrender.
  assert (new_calls (InstancesRenderer_delete s)
            (reconcile layout (InstancesRenderer_delete s))
          = new_calls s (reconcile layout s)) as Hnew.
  { apply new_calls_app. by rewrite Hrender. }
  assert (LayerRenderer_render r ∈ new_calls s (reconcile layout s)) as Hr.
  { rewrite (new_calls_app _ _ _ (reconcile_calls layout s Hs)).
    apply elem_of_app. left.
    apply list_elem_of_fmap in Hin as (l & -> & Hl).
    destruct (loop_calls_renders layout 0 s l Hl) as (r' & Hr' & Hc).
    by rewrite (reconcile_layers_kept _ _ _ _ _ Hn) in Hr'; simplify_eq. }
  rewrite Hnew. split_and!; [done..| |].
  - intros r' l Hc Hname. apply reconcile_constructs in Hc as [Hc _]; [|done].
    congruence.
  - rewrite Hrender. simpl. intros Hfin.
    apply teardown_is_final_app in Hfin as (_ & _ & Hcross).
    by apply (Hcross r Hd (LayerRenderer_render r) Hr).
Qed.

Lemma X15_render_after_delete_witness :
  linked (run [[mkLayer 0 "Main"]])
  ∧ layersRenderers (run [[mkLayer 0 "Main"]]) !! "Main" = Some 0
  ∧ "Main" ∈ layerNames [mkLayer 0 "Main"]
  ∧ returned (render [mkLayer 0 "Main"]
                (InstancesRenderer_delete (run [[mkLayer 0 "Main"]]))) = true
  ∧ LayerRenderer_render 0
      ∈ new_calls (InstancesRenderer_delete (run [[mkLayer 0 "Main"]]))
          (state_of (render [mkLayer 0 "Main"]
                       (InstancesRenderer_delete (run [[mkLayer 0 "Main"]])))).
Proof.
  pose proof (run_linked [[mkLayer 0 "Main"]]) as Hs.
  assert (layersRenderers (run [[mkLayer 0 "Main"]]) !! "Main" = Some 0) as Hn
    by (vm_compute; reflexivity).
  assert ("Main" ∈ layerNames [mkLayer 0 "Main"]) as Hin by (simpl; by left).
  assert (returned (render [mkLayer 0 "Main"]
                      (InstancesRenderer_delete (run [[mkLayer 0 "Main"]]))) = true)
    as Hret by (vm_compute; reflexivity).
  split; [exact Hs|]. split; [exact Hn|]. split; [exact Hin|]. split; [exact Hret|].
  exact (proj1 (proj2 (X15_render_after_delete _ _ _ _ Hs Hn Hin Hret))).
Defined.
